(** * githd: the committed-files explorer tree (src/explorerViewProvider.ts)

    A shallow embedding of the tree builder and of the flatten / nest
    transformers of [ExplorerViewProvider], with the properties of the
    natural-language specification stated over it.

    Conventions of the embedding.
    - A JavaScript string is the list of its UTF-16 code units.
    - [FolderItem] objects form a tree: every folder is created by the
      builder with fresh [subFolders] and [files] arrays and is referenced
      by its parent only.  In-place mutation of a folder is therefore
      rendered as a function returning the updated folder.
    - The host's [path] module is Node's POSIX flavour; [process.cwd()] is
      an explicit argument wherever [path.relative] is called. *)

From Stdlib Require Import String Ascii NArith ZArith Bool List Lia Permutation.
Import ListNotations.
Local Open Scope list_scope.

Set Implicit Arguments.

(** ** JavaScript strings *)

Definition jsstring := list N.

(** Code units of an ASCII literal. *)
Definition js (s : string) : jsstring :=
  map N_of_ascii (list_ascii_of_string s).

Definition CHAR_FORWARD_SLASH : N := 47.
Definition CHAR_BACKWARD_SLASH : N := 92.

(** [a === b] on strings. *)
Fixpoint str_eqb (a b : jsstring) : bool :=
  match a, b with
  | [], [] => true
  | x :: a', y :: b' => N.eqb x y && str_eqb a' b'
  | _, _ => false
  end.

(** Truthiness of a string value: only the empty string is falsy. *)
Definition truthy (s : jsstring) : bool :=
  match s with [] => false | _ :: _ => true end.

(** [String.prototype.split] with a separator that matches exactly one code
    unit ([split('/')], or [split(/\\|\//)]): the pieces between the
    separators, empty pieces included; never the empty array. *)
Fixpoint split (sep : N -> bool) (s : jsstring) : list jsstring :=
  match s with
  | [] => [[]]
  | c :: r =>
      if sep c then [] :: split sep r
      else match split sep r with
           | h :: t => (c :: h) :: t
           | [] => [[c]]
           end
  end.

Definition is_slash (c : N) : bool := N.eqb c CHAR_FORWARD_SLASH.
Definition is_any_slash (c : N) : bool :=
  N.eqb c CHAR_BACKWARD_SLASH || N.eqb c CHAR_FORWARD_SLASH.

(** [Array.prototype.join('/')]. *)
Fixpoint join (l : list jsstring) : jsstring :=
  match l with
  | [] => []
  | [s] => s
  | s :: r => s ++ CHAR_FORWARD_SLASH :: join r
  end.

(** [s.replace(/\\/g, '/')]. *)
Definition replace_backslashes (s : jsstring) : jsstring :=
  map (fun c => if N.eqb c CHAR_BACKWARD_SLASH then CHAR_FORWARD_SLASH else c) s.

(** [String.prototype.slice(a, b)] for [0 <= a], [0 <= b]. *)
Definition slice (s : jsstring) (a b : nat) : jsstring :=
  skipn a (firstn b s).

(** [String.prototype.startsWith]. *)
Fixpoint startsWith (s p : jsstring) : bool :=
  match p, s with
  | [], _ => true
  | x :: p', y :: s' => N.eqb x y && startsWith s' p'
  | _ :: _, [] => false
  end.

(** ** Node's [path] module, POSIX flavour *)

Module path.

Definition charCodeAt (s : jsstring) (i : nat) : N := nth i s 0%N.

(** The scanning loop of [basename]: [k] is [i + 1] for the loop index [i],
    and the state is [(start, end, matchedSlash)], with [end = None] for
    [-1].  The result is the pair [(start, end)] at loop exit. *)
Fixpoint basename_scan (p : jsstring) (k : nat) (e : option nat)
         (matchedSlash : bool) : nat * option nat :=
  match k with
  | O => (O, e)
  | S i =>
      if is_slash (charCodeAt p i) then
        if matchedSlash then basename_scan p i e matchedSlash
        else (S i, e)
      else
        match e with
        | None => basename_scan p i (Some (S i)) false
        | Some _ => basename_scan p i e matchedSlash
        end
  end.

Definition basename (p : jsstring) : jsstring :=
  match basename_scan p (length p) None true with
  | (_, None) => []
  | (start, Some e) => slice p start e
  end.

(** The scanning loop of [dirname], for indices [i >= 1]; the result is
    [end], [None] for [-1]. *)
Fixpoint dirname_scan (p : jsstring) (i : nat) (matchedSlash : bool)
  : option nat :=
  match i with
  | O => None
  | S j =>
      if is_slash (charCodeAt p i) then
        if matchedSlash then dirname_scan p j matchedSlash
        else Some i
      else dirname_scan p j false
  end.

Definition dirname (p : jsstring) : jsstring :=
  match p with
  | [] => js "."
  | c :: _ =>
      let hasRoot := is_slash c in
      match dirname_scan p (length p - 1) true with
      | None => if hasRoot then js "/" else js "."
      | Some e =>
          if hasRoot && Nat.eqb e 1 then js "//" else slice p 0 e
      end
  end.

(** [normalizeString] on the segments of an absolute path: empty and "."
    segments are dropped, ".." removes the segment before it and is
    dropped at the root.  [stack] is the reversed list of the segments
    kept so far. *)
Fixpoint normalize (stack : list jsstring) (segs : list jsstring)
  : list jsstring :=
  match segs with
  | [] => rev stack
  | s :: r =>
      if str_eqb s [] || str_eqb s (js ".") then normalize stack r
      else if str_eqb s (js "..") then normalize (tl stack) r
      else normalize (s :: stack) r
  end.

(** [path.resolve(p)], as the segments of the absolute path it returns.
    [cwd] holds the segments of [process.cwd()], itself a normalized
    absolute path. *)
Definition resolve (cwd : list jsstring) (p : jsstring) : list jsstring :=
  match p with
  | [] => cwd
  | c :: _ =>
      if is_slash c then normalize [] (split is_slash p)
      else normalize (rev cwd) (split is_slash p)
  end.

(** Removes the longest common prefix of two segment lists. *)
Fixpoint drop_common (a b : list jsstring) : list jsstring * list jsstring :=
  match a, b with
  | x :: a', y :: b' => if str_eqb x y then drop_common a' b' else (a, b)
  | _, _ => (a, b)
  end.

(** [path.relative(from, to)]: one ".." for every segment of [from] below
    the common directory, then what is left of [to]. *)
Definition relative (cwd : list jsstring) (from to : jsstring) : jsstring :=
  let (up, down) := drop_common (resolve cwd from) (resolve cwd to) in
  join (map (fun _ => js "..") up ++ down).

End path.

(** ** The data model *)

(** [vscode.Uri]; the provider reads [fsPath] only. *)
Record Uri := mkUri { fsPath : jsstring }.

(** A [status] is a string, or [null] for a focused file that is not part
    of the change list. *)
Definition Status := option jsstring.

Module git.
(** The [git.CommittedFile] interface: a changed-file record. *)
Record CommittedFile := mk {
  uri : Uri;
  gitRelativePath : jsstring;
  status : Status
}.
End git.

(** The class [CommittedFile]: a record with the label of its tree item.
    [new CommittedFile(uri, path, status, label)] is [mkCommittedFile]. *)
Record CommittedFile := mkCommittedFile {
  file_uri : Uri;
  file_gitRelativePath : jsstring;
  file_status : Status;
  file_label : jsstring
}.

(** A [CommittedFile] read through the interface it implements. *)
Definition as_git (f : CommittedFile) : git.CommittedFile :=
  git.mk (file_uri f) (file_gitRelativePath f) (file_status f).

(** [file.label = l]. *)
Definition set_label (l : jsstring) (f : CommittedFile) : CommittedFile :=
  mkCommittedFile (file_uri f) (file_gitRelativePath f) (file_status f) l.

(** The optional [iconPath] of a folder: [rootFolderIcon] or [undefined]. *)
Inductive FolderIcon := rootFolderIcon.

Unset Elimination Schemes.
(** The class [FolderItem]; [new FolderItem(path, label, icon)] is
    [mkFolder path label icon [] []]. *)
Inductive FolderItem := mkFolder {
  gitRelativePath : jsstring;
  label : jsstring;
  iconPath : option FolderIcon;
  subFolders : list FolderItem;
  files : list CommittedFile
}.
Set Elimination Schemes.

(** Induction on folders, with the property known for every subfolder. *)

Section FolderItem_induction.
Variable P : FolderItem -> Prop.
Hypothesis P_folder :
  forall p l icon subs fs, Forall P subs -> P (mkFolder p l icon subs fs).

Fixpoint FolderItem_ind (folder : FolderItem) : P folder :=
  match folder with
  | mkFolder p l icon subs fs =>
      P_folder p l icon fs
        ((fix all (subs : list FolderItem) : Forall P subs :=
            match subs with
            | [] => Forall_nil P
            | sub :: rest => Forall_cons sub (FolderItem_ind sub) (all rest)
            end) subs)
  end.
End FolderItem_induction.

Definition newFolderItem (p l : jsstring) (icon : option FolderIcon) : FolderItem :=
  mkFolder p l icon [] [].

Definition set_subFolders (v : list FolderItem) (f : FolderItem) : FolderItem :=
  mkFolder (gitRelativePath f) (label f) (iconPath f) v (files f).

Definition set_files (v : list CommittedFile) (f : FolderItem) : FolderItem :=
  mkFolder (gitRelativePath f) (label f) (iconPath f) (subFolders f) v.

(** [type CommittedTreeItem = CommittedFile | FolderItem]. *)
Inductive CommittedTreeItem :=
| ItemFile (f : CommittedFile)
| ItemFolder (f : FolderItem).

(** ** Labels *)

(** The literal ['  •  ']. *)
Definition label_separator : jsstring := [32; 160; 8226; 160; 32]%N.

Definition getFormatedLabel (relativePath : jsstring) : jsstring :=
  let name := path.basename relativePath in
  let dir := path.dirname relativePath in
  let dir := if str_eqb dir (js ".") then [] else dir in
  name ++ label_separator ++ dir.

Definition createCommittedFile (file : git.CommittedFile) : CommittedFile :=
  mkCommittedFile (git.uri file) (git.gitRelativePath file) (git.status file)
                  (getFormatedLabel (git.gitRelativePath file)).

(** ** The nested builder *)

(** [arr.find(pred)] followed by an in-place update of the item found:
    the first item satisfying [pred] is replaced by [g item]. *)
Fixpoint update_first {A} (pred : A -> bool) (g : A -> A) (l : list A) : list A :=
  match l with
  | [] => []
  | x :: r => if pred x then g x :: r else x :: update_first pred g r
  end.

(** The loop of [buildOneFileWithFolder] and the final push, from the
    segments that are left, the accumulated [gitRelativePath] and the
    current [parent].  The last segment is the label of the file.  (The case
    of no segment does not arise, see [split_not_nil]; the label read would
    be [undefined].) *)
Fixpoint walk (segments : list jsstring) (gitRelativePath0 : jsstring)
         (file : git.CommittedFile) (parent : FolderItem) : FolderItem :=
  match segments with
  | [] =>
      set_files (files parent ++
                 [mkCommittedFile (git.uri file) (git.gitRelativePath file)
                                  (git.status file) []]) parent
  | [s] =>
      set_files (files parent ++
                 [mkCommittedFile (git.uri file) (git.gitRelativePath file)
                                  (git.status file) s]) parent
  | s :: rest =>
      let gitRelativePath1 := gitRelativePath0 ++ s ++ [CHAR_FORWARD_SLASH] in
      let is_s := fun item : FolderItem => str_eqb (label item) s in
      if existsb is_s (subFolders parent) then
        set_subFolders
          (update_first is_s (walk rest gitRelativePath1 file) (subFolders parent))
          parent
      else
        set_subFolders
          (subFolders parent ++
           [walk rest gitRelativePath1 file (newFolderItem gitRelativePath1 s None)])
          parent
  end.

Definition buildOneFileWithFolder (cwd : list jsstring) (rootFolder : FolderItem)
           (file : git.CommittedFile) (relateivePath : jsstring) : FolderItem :=
  let segments :=
    if truthy relateivePath
    then split is_any_slash
               (path.relative cwd relateivePath (git.gitRelativePath file))
    else split is_slash (git.gitRelativePath file) in
  walk segments relateivePath file rootFolder.

Definition buildFileTree (cwd : list jsstring) (rootFolder : FolderItem)
           (files0 : list git.CommittedFile) (withFolder : bool) : FolderItem :=
  if withFolder then
    fold_left (fun root file => buildOneFileWithFolder cwd root file []) files0 rootFolder
  else
    set_files (files rootFolder ++ map createCommittedFile files0) rootFolder.

Definition buildCommitFolder (cwd : list jsstring) (label0 : jsstring)
           (committedFiles : list git.CommittedFile) (withFolder : bool) : FolderItem :=
  buildFileTree cwd (newFolderItem [] label0 (Some rootFolderIcon))
                committedFiles withFolder.

(** ** The transformers *)

(** The relabelling done by [buildFilesWithoutFolder] on each file. *)
Definition relabel (cwd : list jsstring) (rootPath : jsstring) (file : CommittedFile)
  : CommittedFile :=
  set_label
    (getFormatedLabel
       (replace_backslashes
          (path.relative cwd rootPath (file_gitRelativePath file))))
    file.

(** [buildFilesWithoutFolder(rootFolder, folder)], for a [folder] strictly
    below [rootFolder]: the files of [folder], then those of its subfolders
    in order, are relabelled and pushed onto [rootFolder.files], given here
    as [rootFiles].  The function returns the new [rootFolder.files];
    [folder] is left with no files and no subfolders. *)
Fixpoint buildFilesWithoutFolder (cwd : list jsstring) (rootPath : jsstring)
         (rootFiles : list CommittedFile) (folder : FolderItem)
  : list CommittedFile :=
  fold_left (buildFilesWithoutFolder cwd rootPath)
            (subFolders folder)
            (rootFiles ++ map (relabel cwd rootPath) (files folder)).

(** The state of [folder] after [buildFilesWithoutFolder(rootFolder, folder)]. *)
Definition emptied (folder : FolderItem) : FolderItem :=
  set_subFolders [] (set_files [] folder).

(** [buildFilesWithFolder(rootFolder)]. *)
Fixpoint buildFilesWithFolder (cwd : list jsstring) (rootFolder : FolderItem)
  : FolderItem :=
  let subs := map (buildFilesWithFolder cwd) (subFolders rootFolder) in
  let files0 := files rootFolder in
  fold_left
    (fun root file =>
       buildOneFileWithFolder cwd root (as_git file) (gitRelativePath rootFolder))
    files0
    (mkFolder (gitRelativePath rootFolder) (label rootFolder) (iconPath rootFolder)
              subs []).

(** The branch of [_showFilesWithoutFolder(parent)] taken for a folder
    [parent], before the change notification. *)
Definition showFilesWithoutFolder (cwd : list jsstring) (parent : FolderItem)
  : FolderItem :=
  mkFolder (gitRelativePath parent) (label parent) (iconPath parent) []
           (fold_left (buildFilesWithoutFolder cwd (gitRelativePath parent))
                      (subFolders parent) (files parent)).

(** The branch of [_showFilesWithFolder(parent)] taken for a folder
    [parent], before the change notification. *)
Definition showFilesWithFolder (cwd : list jsstring) (parent : FolderItem)
  : FolderItem :=
  buildFilesWithFolder cwd parent.

(** ** Regular expressions, as far as [String.prototype.search] needs them *)

Module RegExp.

(** [str.search(pattern)] with a string [pattern] compiles it with
    [new RegExp(pattern)].  The fragment modelled here: a pattern made of
    ordinary characters and of the wildcard [.]; a pattern that holds any
    other syntax character is outside the fragment. *)
Inductive atom :=
| Char (c : N)
| Dot.

(** [^ $ \ . * + ? ( ) [ ] { } |] *)
Definition is_syntax_character (c : N) : bool :=
  existsb (N.eqb c) [94; 36; 92; 46; 42; 43; 63; 40; 41; 91; 93; 123; 125; 124]%N.

(** LF, CR, LS, PS: what [.] does not match. *)
Definition is_line_terminator (c : N) : bool :=
  existsb (N.eqb c) [10; 13; 8232; 8233]%N.

Fixpoint parse (pattern : jsstring) : option (list atom) :=
  match pattern with
  | [] => Some []
  | c :: r =>
      match parse r with
      | None => None
      | Some atoms =>
          if N.eqb c 46 then Some (Dot :: atoms)
          else if is_syntax_character c then None
          else Some (Char c :: atoms)
      end
  end.

Definition matches_atom (a : atom) (c : N) : bool :=
  match a with
  | Char x => N.eqb x c
  | Dot => negb (is_line_terminator c)
  end.

(** Does the pattern match at the start of [s]? *)
Fixpoint match_here (atoms : list atom) (s : jsstring) : bool :=
  match atoms, s with
  | [], _ => true
  | a :: atoms', c :: s' => matches_atom a c && match_here atoms' s'
  | _ :: _, [] => false
  end.

(** The index of the first match in [s], whose first code unit has index
    [i] in the whole string; [-1] when there is none. *)
Fixpoint search_from (atoms : list atom) (s : jsstring) (i : Z) : Z :=
  if match_here atoms s then i
  else match s with
       | [] => (-1)%Z
       | _ :: s' => search_from atoms s' (i + 1)%Z
       end.

(** [s.search(pattern)]; [None] for a pattern outside the fragment. *)
Definition search (s pattern : jsstring) : option Z :=
  match parse pattern with
  | Some atoms => Some (search_from atoms s 0%Z)
  | None => None
  end.

End RegExp.

(** ** The focus folder *)

(** The [forEach] of the directory case of [buildFocusFolder]: the records
    whose path matches [relativePath] at index 0. *)
Fixpoint focus_files (relativePath : jsstring) (committedFiles : list git.CommittedFile)
  : option (list git.CommittedFile) :=
  match committedFiles with
  | [] => Some []
  | file :: rest =>
      match RegExp.search (git.gitRelativePath file) relativePath with
      | None => None
      | Some i =>
          match focus_files relativePath rest with
          | None => None
          | Some focus =>
              Some (if Z.eqb i 0 then as_git (createCommittedFile file) :: focus
                    else focus)
          end
      end
  end.

(** [buildFocusFolder].  [relativePath] is what [git.getGitRelativePath]
    answers for [specifiedPath], and [isFile] what
    [fs.lstatSync(specifiedPath.fsPath).isFile()] answers. *)
Definition buildFocusFolder (cwd : list jsstring) (label0 : jsstring)
           (specifiedPath : Uri) (relativePath : jsstring) (isFile : bool)
           (committedFiles : list git.CommittedFile) (withFolder : bool)
  : option FolderItem :=
  let folder := newFolderItem [] label0 (Some rootFolderIcon) in
  if isFile then
    let file :=
      find (fun value => str_eqb (fsPath (git.uri value)) (fsPath specifiedPath))
           committedFiles in
    let focus :=
      mkCommittedFile specifiedPath relativePath
                      (match file with Some f => git.status f | None => None end)
                      (getFormatedLabel relativePath) in
    Some (set_files (files folder ++ [focus]) folder)
  else
    match focus_files relativePath committedFiles with
    | Some focus => Some (buildFileTree cwd folder focus withFolder)
    | None => None
    end.

(** ** The provider *)

(** What a property read or an array slot can hold in [getChildren]. *)
Inductive jsvalue :=
| JSUndefined
| JSFolders (l : list FolderItem)
| JSFiles (l : list CommittedFile).

(** An entry of the array [getChildren] returns. *)
Inductive child :=
| Undefined
| Child (item : CommittedTreeItem).

(** [element.subFolders] and [element.files]: a [CommittedFile] has neither
    property. *)
Definition read_subFolders (element : CommittedTreeItem) : jsvalue :=
  match element with
  | ItemFolder f => JSFolders (subFolders f)
  | ItemFile _ => JSUndefined
  end.

Definition read_files (element : CommittedTreeItem) : jsvalue :=
  match element with
  | ItemFolder f => JSFiles (files f)
  | ItemFile _ => JSUndefined
  end.

(** What [Array.prototype.concat] appends for one argument: the elements of
    an array, or the argument itself when it is not an array. *)
Definition concat_argument (v : jsvalue) : list child :=
  match v with
  | JSUndefined => [Undefined]
  | JSFolders l => map (fun f => Child (ItemFolder f)) l
  | JSFiles l => map (fun f => Child (ItemFile f)) l
  end.

(** [getChildren(element?)]; [_rootFolder] holds folders only.  An object
    is truthy, so the test [if (folder)] always succeeds. *)
Definition getChildren (_rootFolder : list FolderItem)
           (element : option CommittedTreeItem) : list child :=
  match element with
  | None => map (fun f => Child (ItemFolder f)) _rootFolder
  | Some folder =>
      [] ++ concat_argument (read_subFolders folder)
         ++ concat_argument (read_files folder)
  end.

Record FilesViewContext := mkContext {
  leftRef : option jsstring;
  rightRef : option jsstring;
  specifiedPath : option Uri
}.

(** Truthiness of a string that may be [undefined]. *)
Definition truthy_ref (r : option jsstring) : bool :=
  match r with Some s => truthy s | None => false end.

(** The string a template literal prints for a reference. *)
Definition ref_text (r : option jsstring) : jsstring :=
  match r with Some s => s | None => js "undefined" end.

(** *** The focus folder, whatever the collaborators answer *)

(** [new RegExp(pattern)] for a pattern outside the fragment of [RegExp]:
    [None] when the constructor throws a [SyntaxError], and otherwise the
    function [s => s.search(pattern)]. *)
Definition RegExpEngine := jsstring -> option (jsstring -> Z).

(** [s.search(pattern)] for every pattern: inside the fragment as
    [RegExp.search] gives it, outside as the engine gives it; [None] when
    the pattern does not compile. *)
Definition search_with (engine : RegExpEngine) (s pattern : jsstring) : option Z :=
  match RegExp.parse pattern with
  | Some atoms => Some (RegExp.search_from atoms s 0%Z)
  | None =>
      match engine pattern with
      | Some search0 => Some (search0 s)
      | None => None
      end
  end.

(** The [forEach] of the directory case with that search; [None] when a
    call of [search] throws. *)
Fixpoint focus_files_with (engine : RegExpEngine) (relativePath : jsstring)
         (committedFiles : list git.CommittedFile)
  : option (list git.CommittedFile) :=
  match committedFiles with
  | [] => Some []
  | file :: rest =>
      match search_with engine (git.gitRelativePath file) relativePath with
      | None => None
      | Some i =>
          match focus_files_with engine relativePath rest with
          | None => None
          | Some focus =>
              Some (if Z.eqb i 0 then as_git (createCommittedFile file) :: focus
                    else focus)
          end
      end
  end.

(** What the promise of [buildFocusFolder] settles to: the folder, or
    [None] when it is rejected.  [relativePath] is the answer of
    [git.getGitRelativePath], [None] when that promise is rejected;
    [lstat] is the answer of [fs.lstatSync(...).isFile()], [None] when
    [lstatSync] throws (the path is not on disk). *)
Definition buildFocusFolder_with (cwd : list jsstring) (engine : RegExpEngine)
           (label0 : jsstring) (specifiedPath0 : Uri)
           (relativePath : option jsstring) (lstat : option bool)
           (committedFiles : list git.CommittedFile) (withFolder : bool)
  : option FolderItem :=
  match relativePath, lstat with
  | None, _ => None
  | Some _, None => None
  | Some relativePath0, Some true =>
      buildFocusFolder cwd label0 specifiedPath0 relativePath0 true
                       committedFiles withFolder
  | Some relativePath0, Some false =>
      match focus_files_with engine relativePath0 committedFiles with
      | Some focus =>
          Some (buildFileTree cwd (newFolderItem [] label0 (Some rootFolderIcon))
                              focus withFolder)
      | None => None
      end
  end.

(** *** The root sequence *)

(** [this._rootFolder] holds a reference to an array, and every rebuild
    puts a new array there.  A provider is the content of the arrays made
    so far, by reference, the next free reference, and the reference the
    property holds. *)
Record Provider := mkProvider {
  arrays : nat -> list FolderItem;
  allocated : nat;
  rootFolder_ref : nat
}.

(** The array of [this._rootFolder]: what [getChildren()] returns. *)
Definition current (p : Provider) : list FolderItem :=
  arrays p (rootFolder_ref p).

Definition store (r : nat) (v : list FolderItem) (h : nat -> list FolderItem)
  : nat -> list FolderItem :=
  fun k => if Nat.eqb k r then v else h k.

(** The steps of a rebuild that touch the provider. *)
Inductive op :=
| NewRootFolder                 (* this._rootFolder = [] *)
| PushCurrent (f : FolderItem)  (* this._rootFolder.push(f), the property read now *)
| BindRootFolder                (* this._rootFolder.push read, its argument still awaited *)
| PushBound (f : FolderItem)    (* the call of the push read by BindRootFolder *)
| Fire.                         (* this._onDidChange.fire() *)

(** A rebuild in progress: the provider, and the array its pending push is
    bound to, if any. *)
Definition rebuild_state := (Provider * option nat)%type.

(** One step; the second component lists the root sequences shown by the
    notifications fired. *)
Definition step (o : op) (s : rebuild_state) : rebuild_state * list (list FolderItem) :=
  let (p, bound) := s in
  match o with
  | NewRootFolder =>
      ((mkProvider (store (allocated p) [] (arrays p)) (S (allocated p)) (allocated p),
        bound), [])
  | PushCurrent f =>
      ((mkProvider (store (rootFolder_ref p) (current p ++ [f]) (arrays p))
                   (allocated p) (rootFolder_ref p), bound), [])
  | BindRootFolder => ((p, Some (rootFolder_ref p)), [])
  | PushBound f =>
      match bound with
      | Some r =>
          ((mkProvider (store r (arrays p r ++ [f]) (arrays p))
                       (allocated p) (rootFolder_ref p), bound), [])
      | None => (s, [])
      end
  | Fire => (s, [current p])
  end.

(** A turn: the steps run between two suspensions, with nothing else
    running in between. *)
Fixpoint run_turn (ops : list op) (s : rebuild_state)
  : rebuild_state * list (list FolderItem) :=
  match ops with
  | [] => (s, [])
  | o :: rest =>
      let (s1, fired1) := step o s in
      let (s2, fired2) := run_turn rest s1 in
      (s2, fired1 ++ fired2)
  end.

(** *** The rebuild *)

Definition _buildCommitTree (cwd : list jsstring) (files0 : list git.CommittedFile)
           (ref : option jsstring) (withFolder : bool) : list op :=
  [PushCurrent (buildCommitFolder cwd (js "Changes of Commit " ++ ref_text ref)
                                  files0 withFolder)].

Definition _buildDiffBranchTree (cwd : list jsstring) (files0 : list git.CommittedFile)
           (leftRef0 rightRef0 : option jsstring) (withFolder : bool) : list op :=
  [PushCurrent (buildCommitFolder cwd
                  (js "Diffs between " ++ ref_text leftRef0 ++ js " and "
                      ++ ref_text rightRef0)
                  files0 withFolder)].

(** The two [async] builders, turn by turn.  [focus] is what the promise of
    [buildFocusFolder] settles to.  The first turn reads
    [this._rootFolder.push] and suspends on the argument; the second one
    runs only when the promise is fulfilled.  ([buildFocusFolder] touches
    nothing of the provider, so its own resumption and the resumption of
    its caller count as one turn.) *)
Definition _buildPathSpecifiedCommitTree (cwd : list jsstring)
           (focus : option FolderItem) (files0 : list git.CommittedFile)
           (ref : option jsstring) (withFolder : bool) : list (list op) :=
  [BindRootFolder] ::
  match focus with
  | Some folder =>
      [[PushBound folder;
        PushCurrent (buildCommitFolder cwd (js "Changes of Commit " ++ ref_text ref)
                                       files0 withFolder)]]
  | None => []
  end.

Definition _buildPathSpecifiedDiffBranchTree (focus : option FolderItem)
  : list (list op) :=
  [BindRootFolder] ::
  match focus with
  | Some folder => [[PushBound folder]]
  | None => []
  end.

(** Calling an [async] function without [await]: its first turn runs
    inside the turn of the caller, which then goes on with [continuation]
    and ends; the later turns of the callee run on their own. *)
Definition call_without_await (callee : list (list op)) (continuation : list op)
  : list (list op) :=
  match callee with
  | [] => [continuation]
  | first :: later => (first ++ continuation) :: later
  end.

(** [_update()], turn by turn.  [committedFiles] is what the promise of
    [git.getCommittedFiles] settles to, [None] when it is rejected;
    [relativePath] and [lstat] are as in [buildFocusFolder_with];
    [withFolder] is [this._withFolder] when the change list arrives. *)
Definition _update (cwd : list jsstring) (engine : RegExpEngine)
           (context : FilesViewContext) (withFolder : bool)
           (committedFiles : option (list git.CommittedFile))
           (relativePath : option jsstring) (lstat : option bool)
  : list (list op) :=
  let leftRef0 := leftRef context in
  let rightRef0 := rightRef context in
  if negb (truthy_ref rightRef0) then [[NewRootFolder; Fire]]
  else
    [NewRootFolder] ::
    match committedFiles with
    | None => []
    | Some files0 =>
        match specifiedPath context with
        | None =>
            if negb (truthy_ref leftRef0) then
              [_buildCommitTree cwd files0 rightRef0 withFolder ++ [Fire]]
            else
              [_buildDiffBranchTree cwd files0 leftRef0 rightRef0 withFolder ++ [Fire]]
        | Some specifiedPath0 =>
            if negb (truthy_ref leftRef0) then
              call_without_await
                (_buildPathSpecifiedCommitTree cwd
                   (buildFocusFolder_with cwd engine (js "Focus") specifiedPath0
                                          relativePath lstat files0 withFolder)
                   files0 rightRef0 withFolder)
                [Fire]
            else
              call_without_await
                (_buildPathSpecifiedDiffBranchTree
                   (buildFocusFolder_with cwd engine
                      (ref_text leftRef0 ++ js " .. " ++ ref_text rightRef0)
                      specifiedPath0 relativePath lstat files0 withFolder))
                [Fire]
        end
    end.

(** A rebuild that runs alone, its turns one after the other with nothing
    in between.  What the host can see: the root sequence of every
    notification ([Fired]) and the root sequence at the end of every turn
    ([Suspended]). *)
Inductive moment := Suspended | Fired.

Fixpoint run_alone (turns : list (list op)) (s : rebuild_state)
  : list (moment * list FolderItem) * rebuild_state :=
  match turns with
  | [] => ([], s)
  | ops :: later =>
      let (s1, fired) := run_turn ops s in
      let (seen, final) := run_alone later s1 in
      (map (fun roots => (Fired, roots)) fired
       ++ (Suspended, current (fst s1)) :: seen, final)
  end.

(** The folders a rebuild pushes, in the order of the pushes. *)
Definition pushed_by (o : op) : list FolderItem :=
  match o with
  | PushCurrent f => [f]
  | PushBound f => [f]
  | _ => []
  end.

Definition pushed (turns : list (list op)) : list FolderItem :=
  flat_map (flat_map pushed_by) turns.

Definition fires (o : op) : bool :=
  match o with Fire => true | _ => false end.

(** ** Measures on trees *)

(** The files below a folder, its own files first, then those of its
    subfolders in order: the order in which flattening visits them. *)
Fixpoint all_files (folder : FolderItem) : list CommittedFile :=
  files folder ++ flat_map all_files (subFolders folder).

(** Every file below a folder with the labels shown on the way to it: the
    labels of the folders entered, then the label of the file. *)
Fixpoint located (folder : FolderItem) : list (list jsstring * git.CommittedFile) :=
  map (fun f => ([file_label f], as_git f)) (files folder)
  ++ flat_map (fun sub => map (fun x => (label sub :: fst x, snd x)) (located sub))
              (subFolders folder).

(** The parent/child pairs of folder paths, and the pairs of a folder path
    and the path of a file attached to it. *)
Fixpoint folder_edges (folder : FolderItem) : list (jsstring * jsstring) :=
  map (fun sub => (gitRelativePath folder, gitRelativePath sub)) (subFolders folder)
  ++ flat_map folder_edges (subFolders folder).

Fixpoint file_edges (folder : FolderItem) : list (jsstring * jsstring) :=
  map (fun f => (gitRelativePath folder, file_gitRelativePath f)) (files folder)
  ++ flat_map file_edges (subFolders folder).

Unset Elimination Schemes.

(** No folder has two child folders with the same label. *)
Inductive folder_labels_distinct : FolderItem -> Prop :=
| fld_intro p l icon subs fs :
    NoDup (map label subs) ->
    Forall folder_labels_distinct subs ->
    folder_labels_distinct (mkFolder p l icon subs fs).

(** No folder has two child folders, or two child files, with the same
    label. *)
Inductive labels_distinct : FolderItem -> Prop :=
| ld_intro p l icon subs fs :
    NoDup (map label subs) ->
    NoDup (map file_label fs) ->
    Forall labels_distinct subs ->
    labels_distinct (mkFolder p l icon subs fs).

(** The shape of a nested build below the folders labelled [pre]: every
    file sits where the segments of its path lead and is labelled with the
    last one; child folders have distinct labels, hold at least one file,
    and carry the path of their parent extended by their label. *)
Inductive canonical : list jsstring -> FolderItem -> Prop :=
| canonical_intro pre p l icon subs fs :
    Forall (fun f => split is_slash (file_gitRelativePath f) = pre ++ [file_label f]) fs ->
    NoDup (map label subs) ->
    Forall (fun sub =>
              canonical (pre ++ [label sub]) sub /\
              gitRelativePath sub = p ++ label sub ++ [CHAR_FORWARD_SLASH] /\
              iconPath sub = None /\
              all_files sub <> [])
           subs ->
    canonical pre (mkFolder p l icon subs fs).

Set Elimination Schemes.

(** The insertion of [buildOneFileWithFolder] seen from a folder reached
    through the folders labelled [pre]: the segments still to walk are
    those after [pre]. *)
Definition insert_below (pre : list jsstring) (acc : jsstring)
           (parent : FolderItem) (file : git.CommittedFile) : FolderItem :=
  walk (skipn (length pre) (split is_slash (git.gitRelativePath file))) acc file parent.

(** ** The running example of the specification *)

Definition example_records : list git.CommittedFile :=
  [ git.mk (mkUri (js "/repo/src/a.ts")) (js "src/a.ts") (Some (js "M"));
    git.mk (mkUri (js "/repo/src/b.ts")) (js "src/b.ts") (Some (js "A"));
    git.mk (mkUri (js "/repo/README.md")) (js "README.md") (Some (js "D")) ].

(** The separator as the specification prints it: two spaces, a bullet, two
    spaces. *)
Definition spec_label_separator : jsstring := [32; 32; 8226; 32; 32]%N.

(** The label the specification gives, with the separator as printed there. *)
Definition spec_formatLabel (relativePath : jsstring) : jsstring :=
  path.basename relativePath ++ spec_label_separator ++
  (if str_eqb (path.dirname relativePath) (js ".") then []
   else path.dirname relativePath).

(** ** The specification's wording of the focus and rebuild rules *)

Definition to_lower (c : N) : N :=
  if (N.leb 65 c && N.leb c 90)%bool then (c + 32)%N else c.

(** Path equality that ignores case, as the specification words the lookup
    of the focused file. *)
Definition same_path_ignoring_case (a b : jsstring) : bool :=
  str_eqb (map to_lower a) (map to_lower b).

(** The status of the focused file as the specification words it. *)
Definition spec_focus_status (specifiedPath0 : Uri)
           (committedFiles : list git.CommittedFile) : Status :=
  match find (fun value =>
                same_path_ignoring_case (fsPath (git.uri value)) (fsPath specifiedPath0))
             committedFiles with
  | Some f => git.status f
  | None => None
  end.

(** The rebuild discipline as the specification words it, for a rebuild
    that runs alone: whatever the host sees is the forest of before the
    rebuild or the complete new forest, and every notification comes with
    the complete new forest. *)
Definition never_partial (turns : list (list op)) (p : Provider) : Prop :=
  Forall (fun seen =>
            snd seen = current p \/
            snd seen = current (fst (snd (run_alone turns (p, None)))))
         (fst (run_alone turns (p, None))) /\
  Forall (fun seen =>
            fst seen = Fired ->
            snd seen = current (fst (snd (run_alone turns (p, None)))))
         (fst (run_alone turns (p, None))).

(** ** Auxiliary notions of the proofs *)

(** A path segment that [normalizeString] keeps as it is. *)
Definition ordinary_segment (s : jsstring) : bool :=
  negb (str_eqb s [] || str_eqb s (js ".") || str_eqb s (js "..")).

(** A focus path free of regular-expression syntax. *)
Definition plain_pattern (p : jsstring) : bool :=
  forallb (fun c => negb (RegExp.is_syntax_character c)) p.

(** What a rebuild has to reproduce for one child folder. *)
Definition rebuilt_from_files (folder : FolderItem) : Prop :=
  forall pre,
    canonical pre folder ->
    fold_left (insert_below pre (gitRelativePath folder))
              (map as_git (all_files folder)) (emptied folder)
    = folder.

(** Where the segments of its path send a record. *)
Definition destination (file : git.CommittedFile) : list jsstring * git.CommittedFile :=
  (split is_slash (git.gitRelativePath file), file).

(** Records that differ, and whose labels meet once the root is
    flattened: a file of the root named like the flattened label of a file
    of a subfolder. *)
Definition colliding_records : list git.CommittedFile :=
  [ git.mk (mkUri (js "/repo/src/a.ts")) (js "src/a.ts") (Some (js "M"));
    git.mk (mkUri (js "/repo/" ++ js "a.ts" ++ label_separator ++ js "src"))
           (js "a.ts" ++ label_separator ++ js "src") (Some (js "A")) ].

(** The view contexts of the examples: a commit alone, and a commit with a
    specified path. *)
Definition commit_context : FilesViewContext :=
  mkContext None (Some (js "abc")) None.

Definition focus_context : FilesViewContext :=
  mkContext None (Some (js "abc")) (Some (mkUri (js "/repo/src"))).

(** The path a nested build gives the folder reached through the folders
    labelled [pre]: every label followed by a slash. *)
Fixpoint prefix_of (pre : list jsstring) : jsstring :=
  match pre with
  | [] => []
  | s :: rest => s ++ CHAR_FORWARD_SLASH :: prefix_of rest
  end.

(** A folder and every folder below it. *)
Fixpoint all_folders (folder : FolderItem) : list FolderItem :=
  folder :: flat_map all_folders (subFolders folder).

Unset Elimination Schemes.

(** Every path in the tree extends the path of the folder above it: a
    child folder by its label and a slash, a file by its label. *)
Inductive paths_consistent : FolderItem -> Prop :=
| pc_intro p l icon subs fs :
    Forall (fun f => file_gitRelativePath f = p ++ file_label f) fs ->
    Forall (fun sub =>
              gitRelativePath sub = p ++ label sub ++ [CHAR_FORWARD_SLASH] /\
              paths_consistent sub)
           subs ->
    paths_consistent (mkFolder p l icon subs fs).

Set Elimination Schemes.

(** A relative path as git prints it: no empty, ["."] or [".."] segment
    and no backslash. *)
Definition clean_path (p : jsstring) : bool :=
  forallb ordinary_segment (split is_slash p)
  && negb (existsb (N.eqb CHAR_BACKWARD_SLASH) p).

(** The labels met so far, with [s] added at the end unless it is there. *)
Definition first_seen (seen : list jsstring) (s : jsstring) : list jsstring :=
  if existsb (fun x => str_eqb x s) seen then seen else seen ++ [s].

(** Does the path of a record hold a slash, and what comes before the
    first one. *)
Definition has_slash (file : git.CommittedFile) : bool :=
  existsb is_slash (git.gitRelativePath file).

Definition first_segment (file : git.CommittedFile) : jsstring :=
  hd [] (split is_slash (git.gitRelativePath file)).

(** The records of a deeper example, and the folder ["src"] of their
    nested build, which has a subfolder. *)
Definition example_deep_records : list git.CommittedFile :=
  [ git.mk (mkUri (js "/repo/src/ui/a.ts")) (js "src/ui/a.ts") (Some (js "M"));
    git.mk (mkUri (js "/repo/src/b.ts")) (js "src/b.ts") (Some (js "A"));
    git.mk (mkUri (js "/repo/README.md")) (js "README.md") (Some (js "D")) ].

Definition example_deep_src_folder : FolderItem :=
  mkFolder (js "src/") (js "src") None
    [ mkFolder (js "src/ui/") (js "ui") None []
        [ mkCommittedFile (mkUri (js "/repo/src/ui/a.ts")) (js "src/ui/a.ts")
                          (Some (js "M")) (js "a.ts") ] ]
    [ mkCommittedFile (mkUri (js "/repo/src/b.ts")) (js "src/b.ts")
                      (Some (js "A")) (js "b.ts") ].

(** The number of folder levels of a tree, the folder itself included. *)
Fixpoint height (folder : FolderItem) : nat :=
  S (list_max (map height (subFolders folder))).

(** All the lists, one after the other, when every one of them is there. *)
Fixpoint collect {A} (l : list (option (list A))) : option (list A) :=
  match l with
  | [] => Some []
  | None :: _ => None
  | Some x :: rest =>
      match collect rest with
      | Some y => Some (x ++ y)
      | None => None
      end
  end.

(** The file nodes a host reaches from an entry by asking [getChildren]
    again for every folder it is given, at most [fuel] levels down; [None]
    when it meets an [undefined] entry or has not gone deep enough. *)
Fixpoint leaves (fuel : nat) (_rootFolder : list FolderItem) (entry : child)
  : option (list CommittedFile) :=
  match fuel with
  | O => None
  | S fuel' =>
      match entry with
      | Undefined => None
      | Child (ItemFile f) => Some [f]
      | Child (ItemFolder d) =>
          collect (map (leaves fuel' _rootFolder)
                       (getChildren _rootFolder (Some (ItemFolder d))))
      end
  end.

(** *** Folders toggled any number of times *)

Definition BULLET : N := 8226.

(** A clean path that holds no bullet. *)
Definition tidy_path (p : jsstring) : bool :=
  clean_path p && negb (existsb (N.eqb BULLET) p).

(** [g] applied to the element of index [i], if there is one. *)
Fixpoint update_nth {A} (i : nat) (g : A -> A) (l : list A) : list A :=
  match l, i with
  | [], _ => []
  | x :: rest, O => g x :: rest
  | x :: rest, S j => x :: update_nth j g rest
  end.

(** A command run on the folder reached from [folder] through the child
    folders of the given indices: the folder is changed in place. *)
Fixpoint toggle_at (position : list nat) (g : FolderItem -> FolderItem)
         (folder : FolderItem) : FolderItem :=
  match position with
  | [] => g folder
  | i :: rest =>
      set_subFolders (update_nth i (toggle_at rest g) (subFolders folder)) folder
  end.

(** The trees the two commands lead to from [start], run on any folder and
    any number of times. *)
Inductive reachable (cwd : list jsstring) (start : FolderItem) : FolderItem -> Prop :=
| reach_start : reachable cwd start start
| reach_flatten tree position :
    reachable cwd start tree ->
    reachable cwd start (toggle_at position (showFilesWithoutFolder cwd) tree)
| reach_nest tree position :
    reachable cwd start tree ->
    reachable cwd start (toggle_at position (showFilesWithFolder cwd) tree).

Unset Elimination Schemes.

(** What the folders of such a tree have in common, below the folders
    labelled [pre]: the path of the folder is made of these labels; every
    file below it has a path that goes through them, and its label is the
    one segment that is left or the formatted label of the segments that
    are left; child folders have distinct labels, no icon and at least one
    file. *)
Inductive toggled : list jsstring -> FolderItem -> Prop :=
| toggled_intro pre l icon subs fs :
    Forall (fun f =>
              exists rest,
                rest <> [] /\
                split is_slash (file_gitRelativePath f) = pre ++ rest /\
                (rest = [file_label f] \/
                 file_label f = getFormatedLabel (join rest)))
           fs ->
    NoDup (map label subs) ->
    Forall (fun sub =>
              toggled (pre ++ [label sub]) sub /\
              iconPath sub = None /\
              all_files sub <> [])
           subs ->
    toggled pre (mkFolder (prefix_of pre) l icon subs fs).

Set Elimination Schemes.

(** Does the promise of [buildFocusFolder] settle to a folder? *)
Definition focus_settles (engine : RegExpEngine) (relativePath : option jsstring)
           (lstat : option bool) (committedFiles : list git.CommittedFile) : bool :=
  match relativePath, lstat with
  | Some _, Some true => true
  | Some relativePath0, Some false =>
      match focus_files_with engine relativePath0 committedFiles with
      | Some _ => true
      | None => false
      end
  | _, _ => false
  end.

(** Does a rebuild get to push its roots: a right reference, a change list,
    and a focus folder when a path is specified. *)
Definition rebuild_completes (engine : RegExpEngine) (context : FilesViewContext)
           (committedFiles : option (list git.CommittedFile))
           (relativePath : option jsstring) (lstat : option bool) : bool :=
  truthy_ref (rightRef context) &&
  match committedFiles with
  | None => false
  | Some files0 =>
      match specifiedPath context with
      | None => true
      | Some _ => focus_settles engine relativePath lstat files0
      end
  end.

(** An engine for the examples: whatever the pattern, the search answers
    as [a+b] does on the strings of the examples, index 0 for a string that
    starts with ["aab"] and no match for the others. *)
Definition example_engine : RegExpEngine :=
  fun _ => Some (fun s => if startsWith s (js "aab") then 0%Z else (-1)%Z).

(** A provider that shows one root of an earlier rebuild. *)
Definition example_provider : Provider :=
  mkProvider
    (fun r => match r with
              | O => [newFolderItem [] (js "Changes of Commit 123") (Some rootFolderIcon)]
              | S _ => []
              end)
    1 0.

(** The labels of the roots a rebuild pushes when every collaborator
    answers, case by case. *)
Definition expected_root_labels (context : FilesViewContext) : list jsstring :=
  if negb (truthy_ref (rightRef context)) then []
  else
    match specifiedPath context, truthy_ref (leftRef context) with
    | None, false => [js "Changes of Commit " ++ ref_text (rightRef context)]
    | None, true =>
        [js "Diffs between " ++ ref_text (leftRef context) ++ js " and "
            ++ ref_text (rightRef context)]
    | Some _, false =>
        [js "Focus"; js "Changes of Commit " ++ ref_text (rightRef context)]
    | Some _, true =>
        [ref_text (leftRef context) ++ js " .. " ++ ref_text (rightRef context)]
    end.

(** The folder ["src"] of the nested build of the example records. *)
Definition example_src_folder : FolderItem :=
  mkFolder (js "src/") (js "src") None []
    [ mkCommittedFile (mkUri (js "/repo/src/a.ts")) (js "src/a.ts")
                      (Some (js "M")) (js "a.ts");
      mkCommittedFile (mkUri (js "/repo/src/b.ts")) (js "src/b.ts")
                      (Some (js "A")) (js "b.ts") ].

(** ** Strings: basic facts *)

Lemma str_eqb_refl (a : jsstring) : str_eqb a a = true.
Proof.
  induction a as [|x a IH]; simpl; [reflexivity|].
  now rewrite N.eqb_refl.
Qed.

Lemma str_eqb_eq (a b : jsstring) : str_eqb a b = true <-> a = b.
Proof.
  split.
  - revert b; induction a as [|x a IH]; intros [|y b] H; simpl in H;
      try discriminate; [reflexivity|].
    apply andb_true_iff in H as [Hx Hr].
    apply N.eqb_eq in Hx. apply IH in Hr. now subst.
  - intros ->. apply str_eqb_refl.
Qed.

Lemma str_eqb_neq (a b : jsstring) : str_eqb a b = false <-> a <> b.
Proof.
  split.
  - intros H E. apply str_eqb_eq in E. congruence.
  - intros H. destruct (str_eqb a b) eqn:E; [|reflexivity].
    apply str_eqb_eq in E. contradiction.
Qed.

Lemma split_not_nil (sep : N -> bool) (s : jsstring) : split sep s <> [].
Proof.
  destruct s as [|c r]; simpl; [discriminate|].
  destruct (sep c); [discriminate|].
  destruct (split sep r); discriminate.
Qed.

(** [join] undoes [split('/')]. *)
Lemma join_cons (s : jsstring) (l : list jsstring) :
  l <> [] -> join (s :: l) = s ++ CHAR_FORWARD_SLASH :: join l.
Proof. destruct l; [congruence|reflexivity]. Qed.

Lemma join_cons_head (c : N) (h : jsstring) (t : list jsstring) :
  join ((c :: h) :: t) = c :: join (h :: t).
Proof. destruct t; reflexivity. Qed.

Lemma join_split (s : jsstring) : join (split is_slash s) = s.
Proof.
  induction s as [|c r IH]; [reflexivity|].
  cbn [split]. destruct (is_slash c) eqn:Hc.
  - rewrite join_cons by apply split_not_nil.
    rewrite IH. simpl. apply N.eqb_eq in Hc. now subst.
  - pose proof (split_not_nil is_slash r) as Hn.
    destruct (split is_slash r) as [|h t]; [congruence|].
    rewrite join_cons_head. now rewrite IH.
Qed.

Lemma split_slash_inj (a b : jsstring) :
  split is_slash a = split is_slash b -> a = b.
Proof.
  intros H. rewrite <- (join_split a), <- (join_split b). now rewrite H.
Qed.

(** ** [path.relative] from the working directory *)

Lemma normalize_ordinary (segs stack : list jsstring) :
  forallb ordinary_segment segs = true ->
  path.normalize stack segs = rev stack ++ segs.
Proof.
  revert stack; induction segs as [|s r IH]; intros stack H; simpl.
  - now rewrite app_nil_r.
  - simpl in H. apply andb_true_iff in H as [Hs Hr].
    unfold ordinary_segment in Hs. apply negb_true_iff in Hs.
    apply orb_false_iff in Hs as [Hs Hdd].
    rewrite Hs, Hdd. rewrite IH by assumption.
    simpl. now rewrite <- app_assoc.
Qed.

Lemma drop_common_app (c r : list jsstring) :
  path.drop_common c (c ++ r) = ([], r).
Proof.
  induction c as [|x c IH]; simpl.
  - now destruct r.
  - now rewrite str_eqb_refl.
Qed.

(** A relative path with ordinary segments only is its own relative path
    from the working directory. *)
Lemma relative_from_cwd (cwd : list jsstring) (p : jsstring) :
  truthy p = true ->
  is_slash (hd 0%N p) = false ->
  forallb ordinary_segment (split is_slash p) = true ->
  path.relative cwd [] p = p.
Proof.
  intros Hp Hs Ho. unfold path.relative, path.resolve.
  destruct p as [|c p']; [discriminate|].
  simpl in Hs. rewrite Hs.
  rewrite normalize_ordinary by assumption.
  rewrite rev_involutive, drop_common_app.
  cbn [map app]. apply join_split.
Qed.

(** ** Labels *)

(** C8 (as amended).  For every relative path [p] the label is
    [basename(p)], then the separator made of a space, a no-break space
    (U+00A0), a bullet (U+2022), a no-break space and a space, then [d],
    where [d] is empty when [dirname(p)] is ["."] and [dirname(p)]
    otherwise.  The function is total. *)
Theorem C8_getFormatedLabel (p : jsstring) :
  exists d,
    getFormatedLabel p = path.basename p ++ [32; 160; 8226; 160; 32]%N ++ d /\
    (path.dirname p = js "." -> d = []) /\
    (path.dirname p <> js "." -> d = path.dirname p).
Proof.
  unfold getFormatedLabel.
  destruct (str_eqb (path.dirname p) (js ".")) eqn:E.
  - exists []. split; [reflexivity|]. split; [reflexivity|].
    apply str_eqb_eq in E. intros H. contradiction.
  - exists (path.dirname p). split; [reflexivity|]. split; [|reflexivity].
    apply str_eqb_neq in E. intros H. contradiction.
Qed.

(** The label of a path with no directory part ends with the separator. *)
Lemma C8_getFormatedLabel_witness :
  exists d,
    getFormatedLabel (js "README.md")
    = path.basename (js "README.md") ++ [32; 160; 8226; 160; 32]%N ++ d /\
    d = [].
Proof.
  destruct (C8_getFormatedLabel (js "README.md")) as (d & Hlabel & Hdot & _).
  exists d. split; [exact Hlabel|]. apply Hdot. reflexivity.
Defined.

(** C8, as stated, fails: the separator of the code holds no-break spaces
    where the specification prints plain ones. *)
Lemma C8_separator_counterexample :
  getFormatedLabel (js "README.md") <> spec_formatLabel (js "README.md").
Proof. vm_compute. discriminate. Qed.

Example getFormatedLabel_nested :
  getFormatedLabel (js "docs/readme2.md")
  = js "readme2.md" ++ label_separator ++ js "docs".
Proof. reflexivity. Qed.

(** ** The worked example *)

(** The nested build of the example records, shared by the statements
    below. *)
Lemma nested_example_tree (cwd : list jsstring) (label0 : jsstring) :
  buildCommitFolder cwd label0 example_records true
  = mkFolder [] label0 (Some rootFolderIcon)
      [ mkFolder (js "src/") (js "src") None []
          [ mkCommittedFile (mkUri (js "/repo/src/a.ts")) (js "src/a.ts")
                            (Some (js "M")) (js "a.ts");
            mkCommittedFile (mkUri (js "/repo/src/b.ts")) (js "src/b.ts")
                            (Some (js "A")) (js "b.ts") ] ]
      [ mkCommittedFile (mkUri (js "/repo/README.md")) (js "README.md")
                        (Some (js "D")) (js "README.md") ].
Proof. reflexivity. Qed.

(** C5 (as amended).  The nested build of the example records is a root
    with one child folder ["src"], of path ["src/"], holding the files
    labelled ["a.ts"] and ["b.ts"], and with one direct file labelled
    ["README.md"]: the last segment, with no separator. *)
Theorem C5_nested_example (cwd : list jsstring) (label0 : jsstring) :
  buildCommitFolder cwd label0 example_records true
  = mkFolder [] label0 (Some rootFolderIcon)
      [ mkFolder (js "src/") (js "src") None []
          [ mkCommittedFile (mkUri (js "/repo/src/a.ts")) (js "src/a.ts")
                            (Some (js "M")) (js "a.ts");
            mkCommittedFile (mkUri (js "/repo/src/b.ts")) (js "src/b.ts")
                            (Some (js "A")) (js "b.ts") ] ]
      [ mkCommittedFile (mkUri (js "/repo/README.md")) (js "README.md")
                        (Some (js "D")) (js "README.md") ].
Proof. reflexivity. Qed.

(** C5, as stated, fails: the direct file of the root is not labelled with
    a separator, whichever way the separator is spelled. *)
Lemma C5_label_counterexample :
  let root := buildCommitFolder [] (js "Changes of Commit abc") example_records true in
  map file_label (files root) <> [js "README.md" ++ spec_label_separator] /\
  map file_label (files root) <> [js "README.md" ++ label_separator].
Proof. split; vm_compute; discriminate. Qed.

(** C2 (as amended).  Flattening the root of the nested example leaves no
    subfolder and three files: first the root's own file, which keeps its
    label ["README.md"], then the files of ["src"] in order, relabelled
    ["a.ts", separator, "src"] and ["b.ts", separator, "src"]. *)
Theorem C2_flatten_example (cwd : list jsstring) (label0 : jsstring) :
  let flat :=
    showFilesWithoutFolder cwd (buildCommitFolder cwd label0 example_records true) in
  subFolders flat = [] /\
  map file_gitRelativePath (files flat)
  = [js "README.md"; js "src/a.ts"; js "src/b.ts"] /\
  map file_label (files flat)
  = [ js "README.md";
      js "a.ts" ++ label_separator ++ js "src";
      js "b.ts" ++ label_separator ++ js "src" ].
Proof.
  rewrite nested_example_tree.
  cbv beta zeta. split; [reflexivity|]. split; [reflexivity|].
  unfold showFilesWithoutFolder. cbn [subFolders files gitRelativePath fold_left].
  cbn [buildFilesWithoutFolder subFolders files fold_left map app relabel
       set_label file_gitRelativePath file_label].
  rewrite !relative_from_cwd by reflexivity.
  reflexivity.
Qed.

(** C2, as stated, fails: the files of ["src"] do not come first, and the
    root's own file carries no separator. *)
Lemma C2_order_counterexample :
  let flat :=
    showFilesWithoutFolder []
      (buildCommitFolder [] (js "Changes of Commit abc") example_records true) in
  map file_label (files flat)
  <> [ js "a.ts" ++ spec_label_separator ++ js "src";
       js "b.ts" ++ spec_label_separator ++ js "src";
       js "README.md" ++ spec_label_separator ] /\
  map file_label (files flat)
  <> [ js "a.ts" ++ label_separator ++ js "src";
       js "b.ts" ++ label_separator ++ js "src";
       js "README.md" ++ label_separator ].
Proof. split; vm_compute; discriminate. Qed.

(** ** [getChildren] *)

(** C10.  For a file node, [getChildren] returns two entries, both
    [undefined]; with no element it returns the roots, and for a folder
    its subfolders followed by its files. *)
Theorem C10_getChildren (roots : list FolderItem) :
  (forall file : CommittedFile,
      getChildren roots (Some (ItemFile file)) = [Undefined; Undefined]) /\
  getChildren roots None = map (fun f => Child (ItemFolder f)) roots /\
  (forall folder : FolderItem,
      getChildren roots (Some (ItemFolder folder))
      = map (fun f => Child (ItemFolder f)) (subFolders folder)
        ++ map (fun f => Child (ItemFile f)) (files folder)).
Proof. repeat split. Qed.

(** ** The focus folder: a single file *)

Lemma find_none_iff {A} (pred : A -> bool) (l : list A) :
  find pred l = None <-> forall x, In x l -> pred x = false.
Proof.
  induction l as [|a l IH]; simpl.
  - split; [intros _ x []|reflexivity].
  - destruct (pred a) eqn:E.
    + split; [discriminate|]. intros H. specialize (H a (or_introl eq_refl)).
      congruence.
    + rewrite IH. split.
      * intros H x [<-|Hx]; auto.
      * intros H x Hx. apply H. now right.
Qed.

Lemma find_first {A} (pred : A -> bool) (pre post : list A) (x : A) :
  (forall y, In y pre -> pred y = false) -> pred x = true ->
  find pred (pre ++ x :: post) = Some x.
Proof.
  induction pre as [|a pre IH]; simpl; intros Hpre Hx.
  - now rewrite Hx.
  - rewrite (Hpre a (or_introl eq_refl)). apply IH; auto.
Qed.

(** C7 (as amended).  When the focus path is a file, the result is a root
    folder with no subfolder and exactly one file node, for the focus path;
    its status is that of the first record whose [fsPath] is the same
    string as the focus path's (the comparison is case-sensitive), and it
    is absent when no record has that [fsPath]. *)
Theorem C7_focus_on_file (cwd : list jsstring) (label0 : jsstring)
        (specifiedPath0 : Uri) (relativePath : jsstring)
        (committedFiles : list git.CommittedFile) (withFolder : bool) :
  exists st,
    buildFocusFolder cwd label0 specifiedPath0 relativePath true committedFiles withFolder
    = Some (mkFolder [] label0 (Some rootFolderIcon) []
              [mkCommittedFile specifiedPath0 relativePath st
                               (getFormatedLabel relativePath)]) /\
    ((forall f, In f committedFiles -> fsPath (git.uri f) <> fsPath specifiedPath0) ->
     st = None) /\
    (forall pre f post,
        committedFiles = pre ++ f :: post ->
        (forall g, In g pre -> fsPath (git.uri g) <> fsPath specifiedPath0) ->
        fsPath (git.uri f) = fsPath specifiedPath0 ->
        st = git.status f).
Proof.
  unfold buildFocusFolder.
  set (same := fun value : git.CommittedFile =>
                 str_eqb (fsPath (git.uri value)) (fsPath specifiedPath0)).
  exists (match find same committedFiles with
          | Some f => git.status f
          | None => None
          end).
  split; [reflexivity|]. split.
  - intros Hno.
    assert (find same committedFiles = None) as ->; [|reflexivity].
    apply find_none_iff. intros x Hx. apply str_eqb_neq. now apply Hno.
  - intros pre f post -> Hpre Hf.
    rewrite (find_first same pre post f); [reflexivity| |].
    + intros y Hy. apply str_eqb_neq. now apply Hpre.
    + now apply str_eqb_eq.
Qed.

(** The focus on a changed file of the example takes that file's status. *)
Lemma C7_focus_on_file_witness :
  exists st,
    buildFocusFolder [] (js "Focus") (mkUri (js "/repo/README.md")) (js "README.md")
                     true example_records true
    = Some (mkFolder [] (js "Focus") (Some rootFolderIcon) []
              [mkCommittedFile (mkUri (js "/repo/README.md")) (js "README.md") st
                               (getFormatedLabel (js "README.md"))]) /\
    st = Some (js "D").
Proof.
  destruct (C7_focus_on_file [] (js "Focus") (mkUri (js "/repo/README.md"))
                             (js "README.md") example_records true)
    as (st & Hbuilt & _ & Hfirst).
  exists st. split; [exact Hbuilt|].
  apply (Hfirst (firstn 2 example_records)
                (git.mk (mkUri (js "/repo/README.md")) (js "README.md") (Some (js "D")))
                []).
  - reflexivity.
  - intros g [<-|[<-|[]]]; vm_compute; discriminate.
  - reflexivity.
Defined.

(** C7, as stated, fails: a record whose path differs from the focus path
    by case only does not give its status to the focus node. *)
Lemma C7_case_counterexample :
  let focused := mkUri (js "/repo/readme.md") in
  exists folder file,
    buildFocusFolder [] (js "Focus") focused (js "readme.md") true
                     example_records true = Some folder /\
    files folder = [file] /\
    spec_focus_status focused example_records = Some (js "D") /\
    file_status file <> spec_focus_status focused example_records.
Proof.
  eexists; eexists. split; [reflexivity|]. split; [reflexivity|].
  split; [reflexivity|]. vm_compute. discriminate.
Qed.

(** The focus example of the specification: a file outside the change
    list. *)
Example focus_on_absent_file :
  buildFocusFolder [] (js "Focus") (mkUri (js "/repo/docs/readme2.md"))
                   (js "docs/readme2.md") true example_records true
  = Some (mkFolder [] (js "Focus") (Some rootFolderIcon) []
            [mkCommittedFile (mkUri (js "/repo/docs/readme2.md"))
                             (js "docs/readme2.md") None
                             (js "readme2.md" ++ label_separator ++ js "docs")]).
Proof. reflexivity. Qed.

(** ** The focus folder: a directory *)

Lemma as_git_createCommittedFile (file : git.CommittedFile) :
  as_git (createCommittedFile file) = file.
Proof. now destruct file. Qed.

Lemma parse_plain (p : jsstring) :
  plain_pattern p = true -> RegExp.parse p = Some (map RegExp.Char p).
Proof.
  induction p as [|c p IH]; simpl; intros H; [reflexivity|].
  apply andb_true_iff in H as [Hc Hp]. rewrite (IH Hp).
  apply negb_true_iff in Hc.
  destruct (N.eqb c 46) eqn:E.
  - apply N.eqb_eq in E. subst c. discriminate.
  - now rewrite Hc.
Qed.

Lemma match_here_plain (p s : jsstring) :
  RegExp.match_here (map RegExp.Char p) s = startsWith s p.
Proof.
  revert s; induction p as [|c p IH]; intros [|d s]; simpl; try reflexivity.
  now rewrite IH.
Qed.

Lemma search_from_range (atoms : list RegExp.atom) (s : jsstring) (i : Z) :
  RegExp.search_from atoms s i = (-1)%Z \/ (i <= RegExp.search_from atoms s i)%Z.
Proof.
  revert i; induction s as [|c s IH]; intros i; simpl.
  - destruct (RegExp.match_here atoms []); [right; lia|now left].
  - destruct (RegExp.match_here atoms (c :: s)); [right; lia|].
    destruct (IH (i + 1)%Z) as [H|H]; [now left|right; lia].
Qed.

(** With a focus path free of regular-expression syntax, the test of the
    directory case is the prefix test. *)
Lemma search_plain (s p : jsstring) :
  plain_pattern p = true ->
  exists i, RegExp.search s p = Some i /\ Z.eqb i 0 = startsWith s p.
Proof.
  intros Hp. unfold RegExp.search. rewrite (parse_plain p Hp).
  eexists. split; [reflexivity|].
  destruct s as [|c s]; cbn [RegExp.search_from]; rewrite match_here_plain.
  - now destruct (startsWith [] p).
  - destruct (startsWith (c :: s) p); [reflexivity|].
    destruct (search_from_range (map RegExp.Char p) s (0 + 1)) as [H|H].
    + now rewrite H.
    + apply Z.eqb_neq. lia.
Qed.

Lemma focus_files_plain (p : jsstring) (committedFiles : list git.CommittedFile) :
  plain_pattern p = true ->
  focus_files p committedFiles
  = Some (filter (fun file => startsWith (git.gitRelativePath file) p) committedFiles).
Proof.
  intros Hp. induction committedFiles as [|file rest IH]; [reflexivity|].
  simpl. destruct (search_plain (git.gitRelativePath file) p Hp) as [i [-> Hi]].
  rewrite IH, as_git_createCommittedFile, Hi. reflexivity.
Qed.

(** C1: the code at a focus directory whose name holds a dot.  The record
    of the sibling directory ["lib-v2"] does not start with ["lib.v2"], and
    it is kept all the same: the focus path is read as a regular
    expression, in which the dot stands for any character. *)
Theorem C1_search_reads_a_pattern :
  let focus := js "lib.v2" in
  let sibling :=
    git.mk (mkUri (js "/repo/lib-v2/index.ts")) (js "lib-v2/index.ts") (Some (js "M")) in
  startsWith (git.gitRelativePath sibling) focus = false /\
  focus_files focus [sibling] = Some [sibling] /\
  buildFocusFolder [] (js "Focus") (mkUri (js "/repo/lib.v2")) focus false
                   [sibling] false
  = Some (mkFolder [] (js "Focus") (Some rootFolderIcon) []
            [createCommittedFile sibling]).
Proof. repeat split. Qed.

(** The focus-on-directory example of the specification. *)
Example focus_on_src :
  focus_files (js "src") example_records
  = Some (firstn 2 example_records).
Proof. reflexivity. Qed.

(** ** The find-or-create step *)

Lemma update_first_found {A} (pred : A -> bool) (l : list A) :
  existsb pred l = true ->
  exists l1 x l2,
    l = l1 ++ x :: l2 /\ pred x = true /\
    (forall y, In y l1 -> pred y = false) /\
    forall g, update_first pred g l = l1 ++ g x :: l2.
Proof.
  induction l as [|a l IH]; simpl; [discriminate|].
  destruct (pred a) eqn:E; intros H.
  - exists [], a, l. repeat split; auto. intros y [].
  - destruct (IH H) as (l1 & x & l2 & -> & Hx & Hl1 & Hg).
    exists (a :: l1), x, l2. repeat split; auto.
    + intros y [<-|Hy]; auto.
    + intros g. simpl. now rewrite Hg.
Qed.

Lemma existsb_label_false (s : jsstring) (subs : list FolderItem) :
  existsb (fun item => str_eqb (label item) s) subs = false <->
  ~ In s (map label subs).
Proof.
  induction subs as [|a subs IH]; simpl.
  - split; auto.
  - rewrite orb_false_iff, IH, str_eqb_neq. split.
    + intros [H1 H2] [H|H]; auto.
    + intros H. split; auto.
Qed.

Lemma walk_cons (s : jsstring) (rest : list jsstring) (acc : jsstring)
      (file : git.CommittedFile) (parent : FolderItem) :
  rest <> [] ->
  walk (s :: rest) acc file parent
  = let acc1 := acc ++ s ++ [CHAR_FORWARD_SLASH] in
    let is_s := fun item : FolderItem => str_eqb (label item) s in
    if existsb is_s (subFolders parent) then
      set_subFolders (update_first is_s (walk rest acc1 file) (subFolders parent)) parent
    else
      set_subFolders
        (subFolders parent ++ [walk rest acc1 file (newFolderItem acc1 s None)]) parent.
Proof. destruct rest; [congruence|reflexivity]. Qed.

Lemma walk_last (s : jsstring) (acc : jsstring)
      (file : git.CommittedFile) (parent : FolderItem) :
  walk [s] acc file parent
  = set_files (files parent ++
               [mkCommittedFile (git.uri file) (git.gitRelativePath file)
                                (git.status file) s]) parent.
Proof. reflexivity. Qed.

(** Inserting a file changes neither the path, nor the label, nor the icon
    of the folder it starts from. *)
Lemma walk_header (segments : list jsstring) (acc : jsstring)
      (file : git.CommittedFile) (parent : FolderItem) :
  gitRelativePath (walk segments acc file parent) = gitRelativePath parent /\
  label (walk segments acc file parent) = label parent /\
  iconPath (walk segments acc file parent) = iconPath parent.
Proof.
  destruct segments as [|s [|s' rest]]; simpl; auto.
  destruct (existsb _ (subFolders parent)); simpl; auto.
Qed.

Lemma as_git_new (file : git.CommittedFile) (l : jsstring) :
  as_git (mkCommittedFile (git.uri file) (git.gitRelativePath file)
                          (git.status file) l) = file.
Proof. now destruct file. Qed.

Lemma all_files_unfold (p l : jsstring) (icon : option FolderIcon)
      (subs : list FolderItem) (fs : list CommittedFile) :
  all_files (mkFolder p l icon subs fs) = fs ++ flat_map all_files subs.
Proof. reflexivity. Qed.

(** ** Inserting a file keeps every file *)

Lemma flat_map_middle {A B} (h : A -> list B) (l1 l2 : list A) (x : A) :
  flat_map h (l1 ++ x :: l2) = flat_map h l1 ++ h x ++ flat_map h l2.
Proof. now rewrite flat_map_app. Qed.

Lemma perm_insert {A} (a : A) (l1 l2 l3 x : list A) :
  Permutation (l1 ++ l2 ++ (a :: x) ++ l3) (a :: l1 ++ l2 ++ x ++ l3).
Proof.
  rewrite (app_assoc l1 l2 ((a :: x) ++ l3)), (app_assoc l1 l2 (x ++ l3)).
  symmetry. apply Permutation_middle.
Qed.

Lemma walk_files (segments : list jsstring) :
  forall (acc : jsstring) (file : git.CommittedFile) (parent : FolderItem),
    Permutation (map as_git (all_files (walk segments acc file parent)))
                (file :: map as_git (all_files parent)).
Proof.
  assert (Hpush : forall (file : git.CommittedFile) (parent : FolderItem) (l : jsstring),
             Permutation
               (map as_git
                  (all_files
                     (set_files (files parent ++
                                 [mkCommittedFile (git.uri file) (git.gitRelativePath file)
                                                  (git.status file) l]) parent)))
               (file :: map as_git (all_files parent))).
  { intros file [p l0 icon subs fs] l. unfold set_files. cbn [all_files files subFolders].
    rewrite !map_app. cbn [map]. rewrite as_git_new, <- app_assoc.
    symmetry. apply Permutation_middle. }
  induction segments as [|s rest IH]; intros acc file parent.
  - apply Hpush.
  - destruct rest as [|s' rest']; [apply Hpush|].
    rewrite walk_cons by discriminate. cbv zeta.
    destruct parent as [p l0 icon subs fs]. cbn [subFolders].
    destruct (existsb _ subs) eqn:E.
    + destruct (update_first_found _ _ E) as (l1 & x & l2 & -> & _ & _ & Hg).
      rewrite Hg. unfold set_subFolders. cbn [all_files files subFolders].
      rewrite !flat_map_middle, !map_app, IH.
      apply perm_insert.
    + unfold set_subFolders. cbn [all_files files subFolders].
      rewrite flat_map_app. cbn [flat_map]. rewrite app_nil_r, !map_app, IH.
      cbn [all_files newFolderItem files subFolders flat_map app map].
      rewrite <- (app_nil_r (map as_git (flat_map all_files subs))) at 2.
      rewrite <- (app_nil_r [file]).
      apply (perm_insert file (map as_git fs) (map as_git (flat_map all_files subs)) [] []).
Qed.

Lemma walk_files_not_nil (segments : list jsstring) (acc : jsstring)
      (file : git.CommittedFile) (parent : FolderItem) :
  all_files (walk segments acc file parent) <> [].
Proof.
  intros H. pose proof (walk_files segments acc file parent) as Hp.
  rewrite H in Hp. simpl in Hp. apply Permutation_nil in Hp. discriminate.
Qed.

(** ** Inserting a file keeps the shape of a nested build *)

Lemma canonical_inv (pre : list jsstring) (p l : jsstring) (icon : option FolderIcon)
      (subs : list FolderItem) (fs : list CommittedFile) :
  canonical pre (mkFolder p l icon subs fs) ->
  Forall (fun f => split is_slash (file_gitRelativePath f) = pre ++ [file_label f]) fs /\
  NoDup (map label subs) /\
  Forall (fun sub =>
            canonical (pre ++ [label sub]) sub /\
            gitRelativePath sub = p ++ label sub ++ [CHAR_FORWARD_SLASH] /\
            iconPath sub = None /\
            all_files sub <> [])
         subs.
Proof. intros H. inversion H; subst. auto. Qed.

Lemma NoDup_app_cons_end {A} (l : list A) (x : A) :
  NoDup l -> ~ In x l -> NoDup (l ++ [x]).
Proof.
  intros Hl Hx. apply NoDup_rev in Hl.
  rewrite <- (rev_involutive (l ++ [x])). apply NoDup_rev.
  rewrite rev_app_distr. simpl. constructor; [|assumption].
  now rewrite <- in_rev.
Qed.

Lemma walk_canonical (rest : list jsstring) :
  forall (pre : list jsstring) (file : git.CommittedFile) (parent : FolderItem),
    rest <> [] ->
    split is_slash (git.gitRelativePath file) = pre ++ rest ->
    canonical pre parent ->
    canonical pre (walk rest (gitRelativePath parent) file parent).
Proof.
  induction rest as [|s rest IH]; intros pre file parent Hne Hsplit Hc; [congruence|].
  destruct parent as [p l0 icon subs fs].
  apply canonical_inv in Hc as (Hfs & Hnd & Hsubs).
  destruct rest as [|s' rest'].
  - rewrite walk_last. unfold set_files. cbn [files subFolders gitRelativePath label iconPath].
    constructor; auto.
    apply Forall_app. split; [assumption|]. constructor; [|constructor].
    exact Hsplit.
  - rewrite walk_cons by discriminate. cbv zeta. cbn [subFolders gitRelativePath].
    set (acc1 := p ++ s ++ [CHAR_FORWARD_SLASH]).
    assert (Hsplit' : split is_slash (git.gitRelativePath file)
                      = (pre ++ [s]) ++ s' :: rest')
      by (now rewrite <- app_assoc).
    destruct (existsb _ subs) eqn:E.
    + destruct (update_first_found _ _ E) as (l1 & x & l2 & -> & Hx & _ & Hg).
      rewrite Hg. unfold set_subFolders. cbn [files gitRelativePath label iconPath].
      apply str_eqb_eq in Hx.
      apply Forall_app in Hsubs as [H1 H2].
      inversion H2 as [|? ? (Hcx & Hpx & Hix & Hnx) H2']; subst.
      pose proof (walk_header (s' :: rest') acc1 file x) as (Wp & Wl & Wi).
      constructor; auto.
      * rewrite map_app in *. cbn [map] in *. now rewrite Wl.
      * apply Forall_app. split; [assumption|]. constructor; [|assumption].
        rewrite Wl, Wp, Wi. repeat split; auto.
        -- unfold acc1. rewrite <- Hpx. apply IH; auto; discriminate.
        -- apply walk_files_not_nil.
    + unfold set_subFolders. cbn [files gitRelativePath label iconPath].
      apply existsb_label_false in E.
      pose proof (walk_header (s' :: rest') acc1 file (newFolderItem acc1 s None))
        as (Wp & Wl & Wi).
      cbn [newFolderItem gitRelativePath label iconPath] in Wp, Wl, Wi.
      constructor; auto.
      * rewrite map_app. cbn [map]. rewrite Wl.
        apply NoDup_app_cons_end; assumption.
      * apply Forall_app. split; [assumption|]. constructor; [|constructor].
        rewrite Wl, Wp, Wi. repeat split; auto.
        -- change acc1 with (gitRelativePath (newFolderItem acc1 s None)).
           apply IH; auto; [discriminate|].
           constructor; constructor.
        -- apply walk_files_not_nil.
Qed.

(** ** Rebuilding a nested build from its files *)

Lemma skipn_prefix {A} (l r : list A) : skipn (length l) (l ++ r) = r.
Proof. induction l; simpl; auto. Qed.

Lemma update_first_skip {A} (pred : A -> bool) (g : A -> A) (l1 l2 : list A) (x : A) :
  (forall y, In y l1 -> pred y = false) -> pred x = true ->
  update_first pred g (l1 ++ x :: l2) = l1 ++ g x :: l2.
Proof.
  induction l1 as [|a l1 IH]; simpl; intros H1 Hx.
  - now rewrite Hx.
  - rewrite (H1 a (or_introl eq_refl)). f_equal. apply IH; auto.
Qed.

Lemma canonical_files_split (folder : FolderItem) :
  forall pre,
    canonical pre folder ->
    Forall (fun f => exists rest,
                rest <> [] /\
                split is_slash (file_gitRelativePath f) = pre ++ rest)
           (all_files folder).
Proof.
  induction folder as [p l icon subs fs IH] using FolderItem_ind.
  intros pre Hc. apply canonical_inv in Hc as (Hfs & _ & Hsubs).
  rewrite all_files_unfold. apply Forall_app. split.
  - eapply Forall_impl; [|exact Hfs]. intros f Hf. cbv beta in Hf.
    exists [file_label f]. split; [discriminate|assumption].
  - clear Hfs. induction subs as [|sub subs IHs]; [constructor|].
    inversion IH as [|? ? IHsub IHrest]; subst.
    inversion Hsubs as [|? ? (Hcs & _) Hrest]; subst.
    cbn [flat_map]. apply Forall_app. split; [|now apply IHs].
    eapply Forall_impl; [|exact (IHsub _ Hcs)].
    intros f (rest & Hne & Hsplit). exists (label sub :: rest).
    split; [discriminate|]. now rewrite Hsplit, <- app_assoc.
Qed.

Lemma insert_own_files (pre : list jsstring) (p l : jsstring)
      (icon : option FolderIcon) (subs : list FolderItem) :
  forall fs fs0 : list CommittedFile,
    Forall (fun f => split is_slash (file_gitRelativePath f) = pre ++ [file_label f]) fs ->
    fold_left (insert_below pre p) (map as_git fs) (mkFolder p l icon subs fs0)
    = mkFolder p l icon subs (fs0 ++ fs).
Proof.
  induction fs as [|f fs IH]; intros fs0 H; cbn [map fold_left].
  - now rewrite app_nil_r.
  - inversion H as [|? ? Hf Hrest]; subst.
    unfold insert_below at 2. cbn [as_git git.gitRelativePath].
    rewrite Hf, skipn_prefix, walk_last.
    unfold set_files. cbn [files subFolders gitRelativePath label iconPath
                           as_git git.uri git.gitRelativePath git.status].
    replace (mkCommittedFile (file_uri f) (file_gitRelativePath f)
                             (file_status f) (file_label f)) with f
      by now destruct f.
    rewrite IH by assumption. now rewrite <- app_assoc.
Qed.

Lemma insert_descend (pre : list jsstring) (p l : jsstring) (icon : option FolderIcon)
      (fs : list CommittedFile) (s : jsstring) (done : list FolderItem) :
  ~ In s (map label done) ->
  forall (batch : list git.CommittedFile) (sub : FolderItem),
    label sub = s ->
    Forall (fun g => exists rest,
                rest <> [] /\
                split is_slash (git.gitRelativePath g) = pre ++ s :: rest) batch ->
    fold_left (insert_below pre p) batch (mkFolder p l icon (done ++ [sub]) fs)
    = mkFolder p l icon
        (done ++ [fold_left (insert_below (pre ++ [s])
                                          (p ++ s ++ [CHAR_FORWARD_SLASH]))
                            batch sub])
        fs.
Proof.
  intros Hdone. induction batch as [|g batch IH]; intros sub Hsub Hall;
    cbn [fold_left]; [reflexivity|].
  inversion Hall as [|? ? (rest & Hne & Hsplit) Hrest]; subst.
  unfold insert_below at 2. rewrite Hsplit, skipn_prefix, walk_cons by assumption.
  cbv zeta. cbn [subFolders].
  assert (Hlast : str_eqb (label sub) (label sub) = true) by apply str_eqb_refl.
  assert (Hnone : forall y, In y done -> str_eqb (label y) (label sub) = false).
  { intros y Hy. apply str_eqb_neq. intros E. apply Hdone.
    rewrite <- E. now apply in_map. }
  rewrite existsb_app. cbn [existsb]. rewrite Hlast. cbn [orb]. rewrite orb_true_r.
  rewrite update_first_skip by assumption.
  unfold set_subFolders. cbn [files subFolders gitRelativePath label iconPath].
  rewrite IH; [|apply walk_header|assumption].
  do 3 f_equal. unfold insert_below at 3.
  rewrite Hsplit.
  replace (pre ++ label sub :: rest) with ((pre ++ [label sub]) ++ rest)
    by now rewrite <- app_assoc.
  now rewrite skipn_prefix.
Qed.

Lemma insert_subfolder (pre : list jsstring) (p l : jsstring) (icon : option FolderIcon)
      (fs : list CommittedFile) (s : jsstring) (done : list FolderItem)
      (batch : list git.CommittedFile) :
  ~ In s (map label done) ->
  batch <> [] ->
  Forall (fun g => exists rest,
              rest <> [] /\
              split is_slash (git.gitRelativePath g) = pre ++ s :: rest) batch ->
  fold_left (insert_below pre p) batch (mkFolder p l icon done fs)
  = mkFolder p l icon
      (done ++ [fold_left (insert_below (pre ++ [s]) (p ++ s ++ [CHAR_FORWARD_SLASH]))
                          batch
                          (newFolderItem (p ++ s ++ [CHAR_FORWARD_SLASH]) s None)])
      fs.
Proof.
  intros Hdone Hne Hall. destruct batch as [|g batch]; [congruence|].
  inversion Hall as [|? ? (rest & Hrest & Hsplit) Hothers]; subst.
  cbn [fold_left]. unfold insert_below at 2 4.
  rewrite Hsplit, skipn_prefix, walk_cons by assumption.
  replace (pre ++ s :: rest) with ((pre ++ [s]) ++ rest) by now rewrite <- app_assoc.
  rewrite skipn_prefix.
  cbv zeta. cbn [subFolders].
  apply existsb_label_false in Hdone. rewrite Hdone.
  unfold set_subFolders. cbn [files subFolders gitRelativePath label iconPath].
  apply insert_descend; auto.
  - now apply existsb_label_false.
  - apply walk_header.
Qed.

Lemma emptied_unfold (p l : jsstring) (icon : option FolderIcon)
      (subs : list FolderItem) (fs : list CommittedFile) :
  emptied (mkFolder p l icon subs fs) = mkFolder p l icon [] [].
Proof. reflexivity. Qed.

Lemma emptied_sub (sub : FolderItem) (p : jsstring) :
  gitRelativePath sub = p -> iconPath sub = None ->
  emptied sub = newFolderItem p (label sub) None.
Proof. destruct sub; simpl; intros -> ->; reflexivity. Qed.

Lemma insert_subfolders (pre : list jsstring) (p l : jsstring)
      (icon : option FolderIcon) (fs : list CommittedFile) :
  forall todo done : list FolderItem,
    NoDup (map label (done ++ todo)) ->
    Forall (fun sub =>
              canonical (pre ++ [label sub]) sub /\
              gitRelativePath sub = p ++ label sub ++ [CHAR_FORWARD_SLASH] /\
              iconPath sub = None /\
              all_files sub <> [])
           todo ->
    Forall rebuilt_from_files todo ->
    fold_left (insert_below pre p) (map as_git (flat_map all_files todo))
              (mkFolder p l icon done fs)
    = mkFolder p l icon (done ++ todo) fs.
Proof.
  induction todo as [|sub todo IH]; intros done Hnd Hc Hre.
  - cbn [flat_map map fold_left]. now rewrite app_nil_r.
  - inversion Hc as [|? ? (Hcs & Hps & His & Hns) Hc']; subst.
    inversion Hre as [|? ? Hrs Hre']; subst.
    cbn [flat_map]. rewrite map_app, fold_left_app.
    rewrite insert_subfolder with (s := label sub).
    + rewrite <- (emptied_sub sub Hps His), <- Hps, (Hrs _ Hcs).
      replace (done ++ sub :: todo) with ((done ++ [sub]) ++ todo)
        by now rewrite <- app_assoc.
      apply IH; auto. now rewrite <- app_assoc.
    + rewrite map_app in Hnd. cbn [map] in Hnd.
      apply NoDup_remove_2 in Hnd. intros Hin. apply Hnd.
      apply in_or_app. now left.
    + intros E. apply map_eq_nil in E. contradiction.
    + apply Forall_map.
      eapply Forall_impl; [|exact (canonical_files_split Hcs)].
      intros f (rest & Hne & Hsplit). exists rest. split; [assumption|].
      cbn [as_git git.gitRelativePath]. now rewrite Hsplit, <- app_assoc.
Qed.

(** A nested build is rebuilt by inserting its files, in the order in
    which flattening visits them, into the emptied root. *)
Lemma rebuild (folder : FolderItem) : rebuilt_from_files folder.
Proof.
  induction folder as [p l icon subs fs IH] using FolderItem_ind.
  intros pre Hc. apply canonical_inv in Hc as (Hfs & Hnd & Hsubs).
  rewrite all_files_unfold, emptied_unfold, map_app, fold_left_app.
  cbn [gitRelativePath].
  rewrite insert_own_files by assumption. cbn [app].
  now apply insert_subfolders.
Qed.

(** ** The nested build and the two transformers, as insertions *)

Lemma nested_build_insertions (cwd : list jsstring) (label0 : jsstring)
      (committedFiles : list git.CommittedFile) :
  buildCommitFolder cwd label0 committedFiles true
  = fold_left (insert_below [] []) committedFiles
              (newFolderItem [] label0 (Some rootFolderIcon)).
Proof. reflexivity. Qed.

Lemma fold_insert_header (pre : list jsstring) (acc : jsstring)
      (batch : list git.CommittedFile) :
  forall root,
    gitRelativePath (fold_left (insert_below pre acc) batch root) = gitRelativePath root /\
    label (fold_left (insert_below pre acc) batch root) = label root /\
    iconPath (fold_left (insert_below pre acc) batch root) = iconPath root.
Proof.
  induction batch as [|g batch IH]; intros root; cbn [fold_left]; [auto|].
  destruct (IH (insert_below pre acc root g)) as (-> & -> & ->).
  apply walk_header.
Qed.

Lemma fold_insert_canonical (batch : list git.CommittedFile) :
  forall root,
    gitRelativePath root = [] -> canonical [] root ->
    canonical [] (fold_left (insert_below [] []) batch root).
Proof.
  induction batch as [|g batch IH]; intros root Hp Hc; cbn [fold_left]; [assumption|].
  apply IH.
  - unfold insert_below. now rewrite (proj1 (walk_header _ _ _ _)).
  - unfold insert_below. cbn [length skipn]. rewrite <- Hp at 1.
    apply walk_canonical; auto. apply split_not_nil.
Qed.

Lemma fold_insert_files (pre : list jsstring) (acc : jsstring)
      (batch : list git.CommittedFile) :
  forall root,
    Permutation (map as_git (all_files (fold_left (insert_below pre acc) batch root)))
                (map as_git (all_files root) ++ batch).
Proof.
  induction batch as [|g batch IH]; intros root; cbn [fold_left].
  - now rewrite app_nil_r.
  - rewrite IH. unfold insert_below. rewrite walk_files.
    cbn [app]. apply Permutation_middle.
Qed.

Lemma nested_build_canonical (cwd : list jsstring) (label0 : jsstring)
      (committedFiles : list git.CommittedFile) :
  canonical [] (buildCommitFolder cwd label0 committedFiles true).
Proof.
  rewrite nested_build_insertions. apply fold_insert_canonical; [reflexivity|].
  constructor; constructor.
Qed.

Lemma nested_build_files (cwd : list jsstring) (label0 : jsstring)
      (committedFiles : list git.CommittedFile) :
  Permutation (map as_git (all_files (buildCommitFolder cwd label0 committedFiles true)))
              committedFiles.
Proof. rewrite nested_build_insertions. apply fold_insert_files. Qed.

(** Flattening pushes the files below each subfolder, relabelled, in the
    order of [all_files]. *)
Lemma buildFilesWithoutFolder_files (cwd : list jsstring) (rootPath : jsstring)
      (folder : FolderItem) :
  forall rootFiles,
    buildFilesWithoutFolder cwd rootPath rootFiles folder
    = rootFiles ++ map (relabel cwd rootPath) (all_files folder).
Proof.
  induction folder as [p l icon subs fs IH] using FolderItem_ind.
  intros rootFiles. cbn [buildFilesWithoutFolder subFolders files].
  rewrite all_files_unfold, map_app, app_assoc.
  generalize (rootFiles ++ map (relabel cwd rootPath) fs). clear rootFiles.
  induction subs as [|sub subs IHs]; intros acc; cbn [fold_left flat_map map].
  - now rewrite app_nil_r.
  - inversion IH as [|? ? Hsub Hrest]; subst.
    rewrite Hsub, (IHs Hrest), map_app. now rewrite <- app_assoc.
Qed.

Lemma flatten_files (cwd : list jsstring) (rootPath : jsstring) (subs : list FolderItem) :
  forall rootFiles,
    fold_left (buildFilesWithoutFolder cwd rootPath) subs rootFiles
    = rootFiles ++ map (relabel cwd rootPath) (flat_map all_files subs).
Proof.
  induction subs as [|sub subs IH]; intros rootFiles; cbn [fold_left flat_map map].
  - now rewrite app_nil_r.
  - rewrite IH, buildFilesWithoutFolder_files, map_app. now rewrite <- app_assoc.
Qed.

Lemma fold_left_through_map {A B C} (f : A -> B -> A) (g : C -> B) (l : list C) :
  forall a, fold_left (fun r x => f r (g x)) l a = fold_left f (map g l) a.
Proof. induction l as [|x l IH]; intros a; simpl; auto. Qed.

(** Flattening a root of empty path and nesting it again is the nested
    build of its files, taken in the order in which flattening visits
    them. *)
Lemma flatten_then_nest (cwd : list jsstring) (root : FolderItem) :
  gitRelativePath root = [] ->
  showFilesWithFolder cwd (showFilesWithoutFolder cwd root)
  = fold_left (insert_below [] []) (map as_git (all_files root)) (emptied root).
Proof.
  destruct root as [p l icon subs fs]. cbn [gitRelativePath]. intros ->.
  unfold showFilesWithFolder, showFilesWithoutFolder.
  cbn [buildFilesWithFolder gitRelativePath label iconPath subFolders files map].
  rewrite flatten_files, all_files_unfold, emptied_unfold.
  rewrite (fold_left_through_map
             (fun root file => buildOneFileWithFolder cwd root file []) as_git).
  rewrite !map_app, map_map.
  reflexivity.
Qed.

Lemma nested_build_path (cwd : list jsstring) (label0 : jsstring)
      (committedFiles : list git.CommittedFile) :
  gitRelativePath (buildCommitFolder cwd label0 committedFiles true) = [].
Proof.
  rewrite nested_build_insertions.
  now rewrite (proj1 (fold_insert_header [] [] committedFiles _)).
Qed.

(** Flattening the root of a nested build and nesting it again gives the
    nested build back. *)
Lemma roundtrip (cwd : list jsstring) (label0 : jsstring)
      (committedFiles : list git.CommittedFile) :
  showFilesWithFolder cwd
    (showFilesWithoutFolder cwd (buildCommitFolder cwd label0 committedFiles true))
  = buildCommitFolder cwd label0 committedFiles true.
Proof.
  rewrite flatten_then_nest by apply nested_build_path.
  pose proof (rebuild (nested_build_canonical cwd label0 committedFiles)) as H.
  now rewrite nested_build_path in H.
Qed.

(** C6.  For every record list, flattening the root of the nested build
    and nesting it again gives the nested build itself: the same folders
    with the same paths, the same parent/child pairs, and every file
    attached under the same folder. *)
Theorem C6_flatten_then_nest_roundtrip (cwd : list jsstring) (label0 : jsstring)
        (committedFiles : list git.CommittedFile) :
  let nested := buildCommitFolder cwd label0 committedFiles true in
  let again := showFilesWithFolder cwd (showFilesWithoutFolder cwd nested) in
  again = nested /\
  folder_edges again = folder_edges nested /\
  file_edges again = file_edges nested.
Proof.
  cbv zeta. rewrite roundtrip. repeat split.
Qed.

(** ** Distinct labels *)

Lemma NoDup_map_transfer {A B C} (f : A -> B) (g : A -> C) (l : list A) :
  (forall x y, In x l -> In y l -> g x = g y -> f x = f y) ->
  NoDup (map f l) -> NoDup (map g l).
Proof.
  induction l as [|a l IH]; simpl; intros Hfg Hnd; [constructor|].
  inversion Hnd as [|? ? Ha Hl]; subst. constructor.
  - intros Hin. apply in_map_iff in Hin as (b & Hb & Hbl).
    apply Ha. apply in_map_iff. exists b. split; auto.
  - apply IH; auto.
Qed.

Lemma walk_folder_labels (segments : list jsstring) :
  forall (acc : jsstring) (file : git.CommittedFile) (parent : FolderItem),
    folder_labels_distinct parent ->
    folder_labels_distinct (walk segments acc file parent).
Proof.
  assert (Hpush : forall (parent : FolderItem) v,
             folder_labels_distinct parent ->
             folder_labels_distinct (set_files v parent)).
  { intros parent v H. inversion H; subst. now constructor. }
  induction segments as [|s rest IH]; intros acc file parent Hd; [now apply Hpush|].
  destruct rest as [|s' rest']; [now apply Hpush|].
  rewrite walk_cons by discriminate. cbv zeta.
  inversion Hd as [p l icon subs fs Hnd Hsubs]; subst. cbn [subFolders].
  set (acc1 := acc ++ s ++ [CHAR_FORWARD_SLASH]).
  destruct (existsb _ subs) eqn:E.
  - destruct (update_first_found _ _ E) as (l1 & x & l2 & -> & _ & _ & Hg).
    rewrite Hg. unfold set_subFolders. cbn [files gitRelativePath label iconPath].
    apply Forall_app in Hsubs as [H1 H2]. inversion H2; subst.
    constructor.
    + rewrite map_app in *. cbn [map] in *.
      now rewrite (proj1 (proj2 (walk_header _ _ _ _))).
    + apply Forall_app. split; [assumption|]. constructor; auto.
  - unfold set_subFolders. cbn [files gitRelativePath label iconPath].
    apply existsb_label_false in E. constructor.
    + rewrite map_app. cbn [map].
      rewrite (proj1 (proj2 (walk_header _ _ _ _))).
      now apply NoDup_app_cons_end.
    + apply Forall_app. split; [assumption|]. constructor; [|constructor].
      apply IH. constructor; constructor.
Qed.

Lemma fold_buildOne_header (cwd : list jsstring) (rel : jsstring)
      (fs : list CommittedFile) :
  forall root,
    let built :=
      fold_left (fun r f => buildOneFileWithFolder cwd r (as_git f) rel) fs root in
    gitRelativePath built = gitRelativePath root /\
    label built = label root /\
    iconPath built = iconPath root.
Proof.
  induction fs as [|f fs IH]; intros root; cbn [fold_left]; [auto|].
  cbv zeta. destruct (IH (buildOneFileWithFolder cwd root (as_git f) rel)) as (-> & -> & ->).
  apply walk_header.
Qed.

Lemma buildFilesWithFolder_header (cwd : list jsstring) (folder : FolderItem) :
  gitRelativePath (buildFilesWithFolder cwd folder) = gitRelativePath folder /\
  label (buildFilesWithFolder cwd folder) = label folder /\
  iconPath (buildFilesWithFolder cwd folder) = iconPath folder.
Proof.
  destruct folder as [p l icon subs fs].
  cbn [buildFilesWithFolder gitRelativePath label iconPath subFolders files].
  apply (fold_buildOne_header cwd p fs
           (mkFolder p l icon (map (buildFilesWithFolder cwd) subs) [])).
Qed.

Lemma fold_buildOne_folder_labels (cwd : list jsstring) (rel : jsstring)
      (fs : list CommittedFile) :
  forall root,
    folder_labels_distinct root ->
    folder_labels_distinct
      (fold_left (fun r f => buildOneFileWithFolder cwd r (as_git f) rel) fs root).
Proof.
  induction fs as [|f fs IH]; intros root H; cbn [fold_left]; [assumption|].
  apply IH. now apply walk_folder_labels.
Qed.

(** Nesting keeps the labels of child folders distinct. *)
Lemma buildFilesWithFolder_folder_labels (cwd : list jsstring) (folder : FolderItem) :
  folder_labels_distinct folder ->
  folder_labels_distinct (buildFilesWithFolder cwd folder).
Proof.
  induction folder as [p l icon subs fs IH] using FolderItem_ind.
  intros H. inversion H as [? ? ? ? ? Hnd Hsubs]; subst.
  cbn [buildFilesWithFolder gitRelativePath label iconPath subFolders files].
  apply fold_buildOne_folder_labels. constructor.
  - rewrite map_map.
    rewrite (map_ext (fun x => label (buildFilesWithFolder cwd x)) label); [assumption|].
    intros x. apply buildFilesWithFolder_header.
  - apply Forall_map. rewrite Forall_forall in *. auto.
Qed.

(** C9, as stated, fails: the records differ, and the flattened root holds
    two files with the same label. *)
Lemma C9_flatten_counterexample :
  NoDup (map git.gitRelativePath colliding_records) /\
  ~ labels_distinct
      (showFilesWithoutFolder []
         (buildCommitFolder [] (js "Changes of Commit abc") colliding_records true)).
Proof.
  split.
  - repeat constructor; simpl; intuition discriminate.
  - intros H. inversion H as [? ? ? ? ? Hsubs Hfiles Hrest]; subst.
    vm_compute in Hfiles. inversion Hfiles as [|? ? Hin _]; subst.
    apply Hin. now left.
Qed.

(** ** Where the files end up *)

Lemma located_unfold (p l : jsstring) (icon : option FolderIcon)
      (subs : list FolderItem) (fs : list CommittedFile) :
  located (mkFolder p l icon subs fs)
  = map (fun f => ([file_label f], as_git f)) fs
    ++ flat_map (fun sub => map (fun x => (label sub :: fst x, snd x)) (located sub)) subs.
Proof. reflexivity. Qed.

Lemma walk_located (segments : list jsstring) :
  forall (acc : jsstring) (file : git.CommittedFile) (parent : FolderItem),
    segments <> [] ->
    Permutation (located (walk segments acc file parent))
                ((segments, file) :: located parent).
Proof.
  induction segments as [|s rest IH]; intros acc file parent Hne; [congruence|].
  destruct parent as [p l0 icon subs fs].
  destruct rest as [|s' rest'].
  - rewrite walk_last. unfold set_files.
    cbn [files subFolders gitRelativePath label iconPath].
    rewrite !located_unfold, map_app. cbn [map file_label].
    rewrite as_git_new, <- app_assoc. symmetry. apply Permutation_middle.
  - rewrite walk_cons by discriminate. cbv zeta. cbn [subFolders].
    destruct (existsb _ subs) eqn:E.
    + destruct (update_first_found _ _ E) as (l1 & x & l2 & -> & Hx & _ & Hg).
      rewrite Hg. unfold set_subFolders.
      cbn [files subFolders gitRelativePath label iconPath].
      rewrite !located_unfold, !flat_map_middle.
      rewrite (proj1 (proj2 (walk_header _ _ _ _))).
      rewrite IH by discriminate. cbn [map fst snd].
      apply str_eqb_eq in Hx. rewrite Hx.
      apply perm_insert.
    + unfold set_subFolders. cbn [files subFolders gitRelativePath label iconPath].
      rewrite !located_unfold, flat_map_app. cbn [flat_map].
      rewrite (proj1 (proj2 (walk_header _ _ _ _))).
      rewrite IH by discriminate.
      cbn [newFolderItem located files subFolders label map flat_map app fst snd].
      rewrite app_assoc. symmetry. apply Permutation_cons_append.
Qed.

Lemma fold_insert_located (batch : list git.CommittedFile) :
  forall root,
    Permutation (located (fold_left (insert_below [] []) batch root))
                (located root ++ map destination batch).
Proof.
  induction batch as [|g batch IH]; intros root; cbn [fold_left map].
  - now rewrite app_nil_r.
  - rewrite IH. unfold insert_below. cbn [length skipn].
    rewrite walk_located by apply split_not_nil.
    cbn [app]. apply Permutation_middle.
Qed.

Lemma fold_buildOne_files (cwd : list jsstring) (rel : jsstring)
      (fs : list CommittedFile) :
  forall root,
    Permutation
      (map as_git
         (all_files
            (fold_left (fun r f => buildOneFileWithFolder cwd r (as_git f) rel) fs root)))
      (map as_git (all_files root) ++ map as_git fs).
Proof.
  induction fs as [|f fs IH]; intros root; cbn [fold_left map].
  - now rewrite app_nil_r.
  - rewrite IH. unfold buildOneFileWithFolder. rewrite walk_files.
    cbn [app]. apply Permutation_middle.
Qed.

(** Nesting keeps every file. *)
Lemma buildFilesWithFolder_files (cwd : list jsstring) (folder : FolderItem) :
  Permutation (map as_git (all_files (buildFilesWithFolder cwd folder)))
              (map as_git (all_files folder)).
Proof.
  induction folder as [p l icon subs fs IH] using FolderItem_ind.
  cbn [buildFilesWithFolder gitRelativePath label iconPath subFolders files].
  rewrite fold_buildOne_files, !all_files_unfold. cbn [app].
  rewrite map_app, Permutation_app_comm. apply Permutation_app_head.
  induction subs as [|sub subs IHs]; [constructor|].
  inversion IH as [|? ? Hsub Hrest]; subst.
  cbn [map flat_map]. rewrite !map_app. 
  apply Permutation_app; auto.
Qed.

(** Flattening keeps every file, in the order of [all_files]. *)
Lemma showFilesWithoutFolder_files (cwd : list jsstring) (folder : FolderItem) :
  map as_git (all_files (showFilesWithoutFolder cwd folder))
  = map as_git (all_files folder).
Proof.
  destruct folder as [p l icon subs fs]. unfold showFilesWithoutFolder.
  cbn [gitRelativePath label iconPath subFolders files].
  rewrite flatten_files, !all_files_unfold. cbn [flat_map].
  now rewrite app_nil_r, !map_app, map_map.
Qed.

(** C4.  For the nested build of any record list, nesting, then
    flattening into the same folder, then nesting again gives a tree with
    the same files (location handle, relative path and status, counted
    with repetitions), each shown at the end of the same chain of labels
    as in the nested build: the segments of its relative path. *)
Theorem C4_nest_flatten_nest (cwd : list jsstring) (label0 : jsstring)
        (committedFiles : list git.CommittedFile) :
  let nested := buildCommitFolder cwd label0 committedFiles true in
  let final :=
    showFilesWithFolder cwd
      (showFilesWithoutFolder cwd (showFilesWithFolder cwd nested)) in
  Permutation (map as_git (all_files final)) (map as_git (all_files nested)) /\
  Permutation (located final) (located nested) /\
  Permutation (located final) (map destination (map as_git (all_files final))).
Proof.
  intros nested final.
  assert (Hfinal : final
                   = fold_left (insert_below [] [])
                       (map as_git (all_files (showFilesWithFolder cwd nested)))
                       (emptied (showFilesWithFolder cwd nested))).
  { unfold final. apply flatten_then_nest. unfold showFilesWithFolder.
    rewrite (proj1 (buildFilesWithFolder_header cwd nested)).
    apply nested_build_path. }
  assert (Hempty : forall folder, located (emptied folder) = []
                                  /\ all_files (emptied folder) = [])
    by (intros []; split; reflexivity).
  assert (Hfiles : Permutation (map as_git (all_files final)) committedFiles).
  { rewrite Hfinal, fold_insert_files, (proj2 (Hempty _)). cbn [map app].
    unfold showFilesWithFolder. rewrite buildFilesWithFolder_files.
    apply nested_build_files. }
  assert (Hnested : Permutation (located nested) (map destination committedFiles)).
  { unfold nested. rewrite nested_build_insertions, fold_insert_located.
    reflexivity. }
  assert (Hlocated : Permutation (located final) (map destination committedFiles)).
  { rewrite Hfinal at 1. rewrite fold_insert_located, (proj1 (Hempty _)). cbn [app].
    apply Permutation_map. unfold showFilesWithFolder.
    rewrite buildFilesWithFolder_files. apply nested_build_files. }
  split; [|split].
  - rewrite Hfiles. symmetry. apply nested_build_files.
  - now rewrite Hlocated, Hnested.
  - rewrite Hlocated. apply Permutation_map. now symmetry.
Qed.

(** * Further properties of the builder and of the transformers *)

(** ** The builder keeps every record *)

(** X1.  Whatever the mode, the tree built for a commit holds every record
    exactly once: the files of the tree, read as records, are the records
    up to order, so there are as many file nodes as records. *)
Theorem build_keeps_every_record (cwd : list jsstring) (label0 : jsstring)
        (committedFiles : list git.CommittedFile) (withFolder : bool) :
  let root := buildCommitFolder cwd label0 committedFiles withFolder in
  Permutation (map as_git (all_files root)) committedFiles /\
  length (all_files root) = length committedFiles.
Proof.
  cbv zeta.
  assert (H : Permutation
                (map as_git (all_files (buildCommitFolder cwd label0 committedFiles withFolder)))
                committedFiles).
  { destruct withFolder; [apply nested_build_files|].
    unfold buildCommitFolder, buildFileTree, set_files, newFolderItem.
    cbn [all_files files subFolders flat_map app].
    rewrite app_nil_r, map_map.
    rewrite (map_ext _ (fun x => x)) by apply as_git_createCommittedFile.
    now rewrite map_id. }
  split; [assumption|].
  apply Permutation_length in H. now rewrite length_map in H.
Qed.

(** ** Flattening and nesting any folder *)

(** X2.  Flattening a folder, whatever its shape, leaves it with no
    subfolder; the files it held come first and are untouched, and every
    file below its subfolders follows, relabelled, a folder's own files
    before those of its subfolders.  No file is lost or added, the folder
    keeps its path, label and icon, and flattening it once more changes
    nothing. *)
Theorem flatten_any_folder (cwd : list jsstring) (folder : FolderItem) :
  let flat := showFilesWithoutFolder cwd folder in
  subFolders flat = [] /\
  files flat
  = files folder
    ++ map (relabel cwd (gitRelativePath folder))
           (flat_map all_files (subFolders folder)) /\
  map as_git (all_files flat) = map as_git (all_files folder) /\
  gitRelativePath flat = gitRelativePath folder /\
  label flat = label folder /\
  iconPath flat = iconPath folder /\
  showFilesWithoutFolder cwd flat = flat.
Proof.
  cbv zeta. split; [reflexivity|]. split.
  - unfold showFilesWithoutFolder. cbn [files]. apply flatten_files.
  - split; [apply showFilesWithoutFolder_files|]. repeat split.
Qed.

(** X3.  Nesting a folder, whatever its shape, keeps every file below it
    exactly once, and keeps the path, the label and the icon of the
    folder. *)
Theorem nest_any_folder (cwd : list jsstring) (folder : FolderItem) :
  let nested := showFilesWithFolder cwd folder in
  Permutation (map as_git (all_files nested)) (map as_git (all_files folder)) /\
  gitRelativePath nested = gitRelativePath folder /\
  label nested = label folder /\
  iconPath nested = iconPath folder.
Proof.
  cbv zeta. split; [apply buildFilesWithFolder_files|].
  apply buildFilesWithFolder_header.
Qed.

(** ** The focus on a directory *)

(** X5.  With a focus path that holds no regular-expression syntax
    character, the focus root of the directory case is the commit root of
    the records whose path starts with the focus path. *)
Theorem focus_directory_plain_prefix
        (cwd : list jsstring) (label0 : jsstring) (specifiedPath0 : Uri)
        (relativePath : jsstring) (committedFiles : list git.CommittedFile)
        (withFolder : bool) :
  plain_pattern relativePath = true ->
  buildFocusFolder cwd label0 specifiedPath0 relativePath false committedFiles withFolder
  = Some (buildCommitFolder cwd label0
            (filter (fun file => startsWith (git.gitRelativePath file) relativePath)
                    committedFiles)
            withFolder).
Proof.
  intros Hp. unfold buildFocusFolder. now rewrite focus_files_plain.
Qed.

Lemma focus_directory_plain_prefix_witness :
  buildFocusFolder [] (js "Focus") (mkUri (js "/repo/src")) (js "src") false
                   example_records false
  = Some (buildCommitFolder [] (js "Focus")
            (filter (fun file => startsWith (git.gitRelativePath file) (js "src"))
                    example_records)
            false).
Proof.
  apply (focus_directory_plain_prefix [] (js "Focus") (mkUri (js "/repo/src"))
                                      (js "src") example_records false).
  reflexivity.
Defined.

(** X6.  A focus on the root of the repository (the empty relative path)
    keeps every record: the focus root is the commit root under another
    label. *)
Theorem focus_on_repository_root
        (cwd : list jsstring) (label0 : jsstring) (specifiedPath0 : Uri)
        (committedFiles : list git.CommittedFile) (withFolder : bool) :
  buildFocusFolder cwd label0 specifiedPath0 [] false committedFiles withFolder
  = Some (buildCommitFolder cwd label0 committedFiles withFolder).
Proof.
  unfold buildFocusFolder. rewrite focus_files_plain by reflexivity.
  assert (Hall : filter (fun file => startsWith (git.gitRelativePath file) [])
                        committedFiles = committedFiles).
  { induction committedFiles as [|file rest IH]; [reflexivity|].
    cbn [filter]. destruct (git.gitRelativePath file); cbn [startsWith];
      now rewrite IH. }
  now rewrite Hall.
Qed.

(** ** The shape of a nested build *)

Lemma prefix_of_app (pre : list jsstring) (s : jsstring) :
  prefix_of (pre ++ [s]) = prefix_of pre ++ s ++ [CHAR_FORWARD_SLASH].
Proof.
  induction pre as [|x pre IH]; cbn [prefix_of app]; [reflexivity|].
  rewrite IH, <- app_assoc. reflexivity.
Qed.

Lemma join_snoc (pre : list jsstring) (l : jsstring) :
  join (pre ++ [l]) = prefix_of pre ++ l.
Proof.
  induction pre as [|x pre IH]; [reflexivity|].
  cbn [app prefix_of]. rewrite join_cons by (destruct pre; discriminate).
  now rewrite IH, <- app_assoc.
Qed.

Lemma canonical_paths_consistent (folder : FolderItem) :
  forall pre,
    canonical pre folder ->
    gitRelativePath folder = prefix_of pre ->
    paths_consistent folder.
Proof.
  induction folder as [p l icon subs fs IH] using FolderItem_ind.
  intros pre Hc Hp. cbn [gitRelativePath] in Hp. subst p.
  apply canonical_inv in Hc as (Hfs & _ & Hsubs).
  constructor.
  - eapply Forall_impl; [|exact Hfs]. intros f Hf. cbv beta in Hf.
    now rewrite <- (join_split (file_gitRelativePath f)), Hf, join_snoc.
  - rewrite Forall_forall in *. intros sub Hin.
    destruct (Hsubs sub Hin) as (Hcs & Hps & _).
    split; [assumption|].
    apply (IH sub Hin (pre ++ [label sub]) Hcs).
    now rewrite prefix_of_app.
Qed.

(** X11.  In a nested build every path extends the path of the folder
    above it: the path of a child folder is the path of its parent, its
    label and a slash, and the path of a file is the path of its folder
    followed by its label.  This holds for every record list. *)
Theorem nested_build_paths (cwd : list jsstring) (label0 : jsstring)
        (committedFiles : list git.CommittedFile) :
  paths_consistent (buildCommitFolder cwd label0 committedFiles true).
Proof.
  apply (canonical_paths_consistent (nested_build_canonical cwd label0 committedFiles)).
  apply nested_build_path.
Qed.

Lemma canonical_folders (folder : FolderItem) :
  forall pre,
    canonical pre folder ->
    folder_labels_distinct folder /\
    Forall (fun sub => all_files sub <> [] /\ iconPath sub = None)
           (flat_map all_folders (subFolders folder)).
Proof.
  induction folder as [p l icon subs fs IH] using FolderItem_ind.
  intros pre Hc. apply canonical_inv in Hc as (_ & Hnd & Hsubs).
  cbn [subFolders]. rewrite Forall_forall in IH, Hsubs. split.
  - constructor; [assumption|]. apply Forall_forall. intros sub Hin.
    destruct (Hsubs sub Hin) as (Hcs & _). now apply (IH sub Hin _ Hcs).
  - apply Forall_forall. intros x Hx.
    apply in_flat_map in Hx as (sub & Hin & Hx).
    destruct (Hsubs sub Hin) as (Hcs & _ & Hicon & Hfiles).
    destruct sub as [sp sl sicon ssubs sfs]. cbn [all_folders subFolders] in Hx.
    destruct Hx as [<-|Hx]; [now split|].
    destruct (IH _ Hin _ Hcs) as (_ & Hbelow).
    rewrite Forall_forall in Hbelow. now apply Hbelow.
Qed.

(** X12.  Whatever the records, also with repeated paths, no folder of a
    nested build has two child folders with the same label, and every
    folder below the root holds at least one file, in itself or further
    down, and has no icon: the builder creates a folder only for a file
    that goes under it. *)
Theorem nested_build_folders (cwd : list jsstring) (label0 : jsstring)
        (committedFiles : list git.CommittedFile) :
  let root := buildCommitFolder cwd label0 committedFiles true in
  folder_labels_distinct root /\
  Forall (fun sub => all_files sub <> [] /\ iconPath sub = None)
         (flat_map all_folders (subFolders root)).
Proof.
  exact (canonical_folders (nested_build_canonical cwd label0 committedFiles)).
Qed.

Lemma split_without_slash (s : jsstring) :
  existsb is_slash s = false -> split is_slash s = [s].
Proof.
  induction s as [|c s IH]; [reflexivity|].
  cbn [existsb split]. intros H. apply orb_false_iff in H as [Hc Hs].
  now rewrite Hc, (IH Hs).
Qed.

Lemma split_with_slash (s : jsstring) :
  existsb is_slash s = true ->
  exists a b rest, split is_slash s = a :: b :: rest.
Proof.
  induction s as [|c s IH]; [discriminate|].
  cbn [existsb split]. intros H.
  destruct (is_slash c) eqn:Hc.
  - pose proof (split_not_nil is_slash s) as Hn.
    destruct (split is_slash s) as [|b rest]; [congruence|]. eauto.
  - cbn [orb] in H. destruct (IH H) as (a & b & rest & ->). eauto.
Qed.

Lemma insert_root_children (file : git.CommittedFile) (root : FolderItem) :
  let inserted := insert_below [] [] root file in
  files inserted
  = files root
    ++ (if has_slash file then []
        else [mkCommittedFile (git.uri file) (git.gitRelativePath file)
                              (git.status file) (git.gitRelativePath file)]) /\
  map label (subFolders inserted)
  = if has_slash file
    then first_seen (map label (subFolders root)) (first_segment file)
    else map label (subFolders root).
Proof.
  cbv zeta. unfold insert_below, has_slash, first_segment. cbn [length skipn].
  destruct (existsb is_slash (git.gitRelativePath file)) eqn:E.
  - destruct (split_with_slash _ E) as (a & b & rest & ->).
    rewrite walk_cons by discriminate. cbv zeta. cbn [hd]. unfold first_seen.
    assert (Hex : existsb (fun item : FolderItem => str_eqb (label item) a)
                          (subFolders root)
                  = existsb (fun x => str_eqb x a) (map label (subFolders root))).
    { induction (subFolders root) as [|x l IH]; [reflexivity|].
      cbn [existsb map]. now rewrite IH. }
    rewrite <- Hex.
    destruct (existsb _ (subFolders root)) eqn:Ex;
      unfold set_subFolders; cbn [files subFolders].
    + split; [now rewrite app_nil_r|].
      destruct (update_first_found _ _ Ex) as (l1 & x & l2 & Hl & _ & _ & Hg).
      rewrite Hg, Hl, !map_app. cbn [map].
      now rewrite (proj1 (proj2 (walk_header _ _ _ _))).
    + split; [now rewrite app_nil_r|].
      rewrite map_app. cbn [map].
      now rewrite (proj1 (proj2 (walk_header _ _ _ _))).
  - rewrite (split_without_slash _ E), walk_last.
    unfold set_files. cbn [files subFolders]. split; reflexivity.
Qed.

Lemma fold_insert_root_children (batch : list git.CommittedFile) :
  forall root,
    let built := fold_left (insert_below [] []) batch root in
    files built
    = files root
      ++ map (fun file =>
                mkCommittedFile (git.uri file) (git.gitRelativePath file)
                                (git.status file) (git.gitRelativePath file))
             (filter (fun file => negb (has_slash file)) batch) /\
    map label (subFolders built)
    = fold_left first_seen (map first_segment (filter has_slash batch))
                (map label (subFolders root)).
Proof.
  induction batch as [|file batch IH]; intros root; cbn [fold_left].
  - cbn. now rewrite app_nil_r.
  - cbv zeta. destruct (IH (insert_below [] [] root file)) as (-> & ->).
    destruct (insert_root_children file root) as (-> & ->).
    cbn [filter]. destruct (has_slash file); cbn [negb map fold_left].
    + now rewrite app_nil_r.
    + now rewrite <- app_assoc.
Qed.

(** X13.  The files directly under the root of a nested build are the
    records whose path holds no slash, in the order of the records, each
    labelled with its whole path. *)
Theorem nested_build_root_files (cwd : list jsstring) (label0 : jsstring)
        (committedFiles : list git.CommittedFile) :
  files (buildCommitFolder cwd label0 committedFiles true)
  = map (fun file =>
           mkCommittedFile (git.uri file) (git.gitRelativePath file)
                           (git.status file) (git.gitRelativePath file))
        (filter (fun file => negb (has_slash file)) committedFiles).
Proof.
  rewrite nested_build_insertions.
  now rewrite (proj1 (fold_insert_root_children committedFiles _)).
Qed.

(** X14.  The child folders of the root of a nested build come in
    first-seen order: their labels are the first segments of the records
    whose path holds a slash, each kept at its first occurrence. *)
Theorem nested_build_root_folders (cwd : list jsstring) (label0 : jsstring)
        (committedFiles : list git.CommittedFile) :
  map label (subFolders (buildCommitFolder cwd label0 committedFiles true))
  = fold_left first_seen (map first_segment (filter has_slash committedFiles)) [].
Proof.
  rewrite nested_build_insertions.
  now rewrite (proj2 (fold_insert_root_children committedFiles _)).
Qed.

(** ** Labels, read off the segments of a path *)

Lemma nth_after (d n : jsstring) (k : nat) :
  nth (length d + S k) (d ++ CHAR_FORWARD_SLASH :: n) 0%N = nth k n 0%N.
Proof.
  rewrite app_nth2 by lia.
  replace (length d + S k - length d) with (S k) by lia. reflexivity.
Qed.

Lemma nth_not_slash (n : jsstring) (k : nat) :
  existsb is_slash n = false -> k < length n -> is_slash (nth k n 0%N) = false.
Proof.
  revert k; induction n as [|c n IH]; intros k H Hk; [simpl in Hk; lia|].
  cbn [existsb] in H. apply orb_false_iff in H as [Hc Hn].
  destruct k; [exact Hc|]. cbn [nth]. apply IH; [assumption|simpl in Hk; lia].
Qed.

Lemma basename_scan_directory (d n : jsstring) (e0 : nat) :
  existsb is_slash n = false ->
  forall k, k <= length n ->
    path.basename_scan (d ++ CHAR_FORWARD_SLASH :: n) (S (length d + k)) (Some e0) false
    = (S (length d), Some e0).
Proof.
  intros Hn. induction k as [|k IH]; intros Hk; cbn [path.basename_scan].
  - unfold path.charCodeAt. rewrite Nat.add_0_r, nth_middle. reflexivity.
  - unfold path.charCodeAt. rewrite nth_after, nth_not_slash by (assumption || lia).
    rewrite Nat.add_succ_r. apply IH. lia.
Qed.

Lemma basename_scan_plain (n : jsstring) (e0 : nat) :
  existsb is_slash n = false ->
  forall k, k <= length n ->
    path.basename_scan n k (Some e0) false = (0, Some e0).
Proof.
  intros Hn. induction k as [|k IH]; intros Hk; cbn [path.basename_scan];
    [reflexivity|].
  unfold path.charCodeAt. rewrite nth_not_slash by (assumption || lia).
  apply IH. lia.
Qed.

Lemma slice_all (s : jsstring) : slice s 0 (length s) = s.
Proof. unfold slice. cbn [skipn]. apply firstn_all. Qed.

Lemma basename_in_directory (d n : jsstring) :
  n <> [] -> existsb is_slash n = false ->
  path.basename (d ++ CHAR_FORWARD_SLASH :: n) = n.
Proof.
  intros Hne Hn. unfold path.basename.
  rewrite length_app. cbn [length].
  destruct (length n) as [|m] eqn:Hm; [destruct n; [congruence|discriminate]|].
  replace (length d + S (S m)) with (S (length d + S m)) by lia.
  cbn [path.basename_scan]. unfold path.charCodeAt.
  rewrite nth_after, nth_not_slash by (assumption || lia).
  rewrite Nat.add_succ_r, basename_scan_directory by (assumption || lia).
  unfold slice.
  replace (S (S (length d + m))) with (length (d ++ CHAR_FORWARD_SLASH :: n))
    by (rewrite length_app; cbn [length]; lia).
  rewrite firstn_all.
  replace (S (length d)) with (length (d ++ [CHAR_FORWARD_SLASH]))
    by (rewrite length_app; cbn [length]; lia).
  replace (d ++ CHAR_FORWARD_SLASH :: n) with ((d ++ [CHAR_FORWARD_SLASH]) ++ n)
    by now rewrite <- app_assoc.
  apply skipn_prefix.
Qed.

Lemma basename_plain (n : jsstring) :
  existsb is_slash n = false -> path.basename n = n.
Proof.
  intros Hn. unfold path.basename.
  destruct (length n) as [|m] eqn:Hm.
  - now destruct n.
  - cbn [path.basename_scan]. unfold path.charCodeAt.
    rewrite nth_not_slash by (assumption || lia).
    rewrite basename_scan_plain by (assumption || lia).
    rewrite <- Hm. apply slice_all.
Qed.

Lemma dirname_scan_directory (d n : jsstring) :
  d <> [] -> existsb is_slash n = false ->
  forall k, k <= length n ->
    path.dirname_scan (d ++ CHAR_FORWARD_SLASH :: n) (length d + k) false
    = Some (length d).
Proof.
  intros Hd Hn. induction k as [|k IH]; intros Hk.
  - rewrite Nat.add_0_r.
    destruct (length d) as [|j] eqn:Hj; [destruct d; [congruence|discriminate]|].
    cbn [path.dirname_scan]. unfold path.charCodeAt.
    rewrite <- Hj, nth_middle. reflexivity.
  - rewrite Nat.add_succ_r. cbn [path.dirname_scan]. unfold path.charCodeAt.
    rewrite <- Nat.add_succ_r, nth_after, nth_not_slash by (assumption || lia).
    apply IH. lia.
Qed.

Lemma dirname_scan_plain (n : jsstring) :
  existsb is_slash n = false ->
  forall i matchedSlash, i < length n -> path.dirname_scan n i matchedSlash = None.
Proof.
  intros Hn. induction i as [|i IH]; intros matchedSlash Hi; [reflexivity|].
  cbn [path.dirname_scan]. unfold path.charCodeAt.
  rewrite nth_not_slash by assumption. apply IH. lia.
Qed.

Lemma dirname_in_directory (d n : jsstring) :
  d <> [] -> d <> js "/" -> n <> [] -> existsb is_slash n = false ->
  path.dirname (d ++ CHAR_FORWARD_SLASH :: n) = d.
Proof.
  intros Hd Hroot Hne Hn. unfold path.dirname.
  destruct d as [|c d']; [congruence|]. cbn [app].
  change (c :: d' ++ CHAR_FORWARD_SLASH :: n)
    with ((c :: d') ++ CHAR_FORWARD_SLASH :: n).
  set (d := c :: d') in *.
  rewrite length_app. cbn [length].
  destruct (length n) as [|m] eqn:Hm; [destruct n; [congruence|discriminate]|].
  replace (length d + S (S m) - 1) with (S (length d + m)) by lia.
  cbn [path.dirname_scan]. unfold path.charCodeAt.
  rewrite <- Nat.add_succ_r, nth_after, nth_not_slash by (assumption || lia).
  rewrite dirname_scan_directory by (assumption || lia).
  assert (Hslice : slice (d ++ CHAR_FORWARD_SLASH :: n) 0 (length d) = d).
  { unfold slice. cbn [skipn]. rewrite firstn_app, firstn_all, Nat.sub_diag.
    cbn [firstn]. apply app_nil_r. }
  destruct (is_slash c && Nat.eqb (length d) 1) eqn:E; [|exact Hslice].
  exfalso. apply andb_true_iff in E as [Hc Hl].
  apply N.eqb_eq in Hc. apply Nat.eqb_eq in Hl.
  apply Hroot. subst d c. destruct d'; [reflexivity|discriminate].
Qed.

Lemma dirname_plain (n : jsstring) :
  existsb is_slash n = false -> path.dirname n = js ".".
Proof.
  intros Hn. unfold path.dirname. destruct n as [|c n']; [reflexivity|].
  rewrite dirname_scan_plain by (assumption || (cbn [length]; lia)).
  cbn [existsb] in Hn. apply orb_false_iff in Hn as [-> _]. reflexivity.
Qed.

(** X15.  For a path made of a directory part, a slash and a name, where
    the name is not empty and holds no slash and the directory part is
    neither empty, nor ["/"], nor ["."], the label is the name, the
    separator and the directory part. *)
Theorem getFormatedLabel_in_directory (d n : jsstring) :
  d <> [] -> d <> js "/" -> d <> js "." ->
  n <> [] -> existsb is_slash n = false ->
  getFormatedLabel (d ++ CHAR_FORWARD_SLASH :: n) = n ++ label_separator ++ d.
Proof.
  intros Hd Hroot Hdot Hne Hn. unfold getFormatedLabel.
  rewrite basename_in_directory, dirname_in_directory by assumption.
  apply str_eqb_neq in Hdot. now rewrite Hdot.
Qed.

Lemma getFormatedLabel_in_directory_witness :
  getFormatedLabel (js "src/ui" ++ CHAR_FORWARD_SLASH :: js "a.ts")
  = js "a.ts" ++ label_separator ++ js "src/ui".
Proof.
  apply getFormatedLabel_in_directory; try discriminate. reflexivity.
Defined.

(** X16.  For a path that holds no slash, the empty path included, the
    label is the path followed by the separator. *)
Theorem getFormatedLabel_top_level (n : jsstring) :
  existsb is_slash n = false ->
  getFormatedLabel n = n ++ label_separator.
Proof.
  intros Hn. unfold getFormatedLabel.
  rewrite basename_plain, dirname_plain by assumption.
  rewrite str_eqb_refl. now rewrite app_nil_r.
Qed.

Lemma getFormatedLabel_top_level_witness :
  getFormatedLabel (js "README.md") = js "README.md" ++ label_separator.
Proof. apply getFormatedLabel_top_level. reflexivity. Defined.

(** ** Segments, [split] and [join] *)

Lemma split_segments_avoid (sep f : N -> bool) (s : jsstring) :
  existsb f s = false ->
  Forall (fun seg => existsb f seg = false) (split sep s).
Proof.
  induction s as [|c s IH]; cbn [split existsb]; intros H.
  - repeat constructor.
  - apply orb_false_iff in H as [Hc Hs]. specialize (IH Hs).
    destruct (sep c); [constructor; [reflexivity|assumption]|].
    destruct (split sep s) as [|h t]; [repeat constructor; cbn; now rewrite Hc|].
    inversion IH; subst. constructor; [|assumption].
    cbn [existsb]. now rewrite Hc.
Qed.

Lemma split_segments_no_sep (sep : N -> bool) (s : jsstring) :
  Forall (fun seg => existsb sep seg = false) (split sep s).
Proof.
  induction s as [|c s IH]; cbn [split].
  - repeat constructor.
  - destruct (sep c) eqn:Hc; [constructor; [reflexivity|assumption]|].
    destruct (split sep s) as [|h t]; [repeat constructor; cbn; now rewrite Hc|].
    inversion IH; subst. constructor; [|assumption].
    cbn [existsb]. now rewrite Hc.
Qed.

Lemma split_no_sep (sep : N -> bool) (a : jsstring) :
  existsb sep a = false -> split sep a = [a].
Proof.
  induction a as [|c a IH]; [reflexivity|].
  cbn [existsb split]. intros H. apply orb_false_iff in H as [Hc Ha].
  now rewrite Hc, (IH Ha).
Qed.

Lemma split_app_sep (sep : N -> bool) (a r : jsstring) (c : N) :
  existsb sep a = false -> sep c = true ->
  split sep (a ++ c :: r) = a :: split sep r.
Proof.
  intros Ha Hc. induction a as [|x a IH]; cbn [app split].
  - now rewrite Hc.
  - cbn [existsb] in Ha. apply orb_false_iff in Ha as [Hx Ha].
    now rewrite Hx, (IH Ha).
Qed.

Lemma split_join (sep : N -> bool) (l : list jsstring) :
  sep CHAR_FORWARD_SLASH = true ->
  l <> [] ->
  Forall (fun seg => existsb sep seg = false) l ->
  split sep (join l) = l.
Proof.
  intros Hsep. induction l as [|s l IH]; intros Hne Hall; [congruence|].
  inversion Hall as [|? ? Hs Hl]; subst.
  destruct l as [|s' l'].
  - cbn [join]. now apply split_no_sep.
  - rewrite join_cons by discriminate.
    rewrite split_app_sep by assumption.
    now rewrite IH by (assumption || discriminate).
Qed.

Lemma join_below (pre rest : list jsstring) :
  rest <> [] -> join (pre ++ rest) = prefix_of pre ++ join rest.
Proof.
  intros Hne. induction pre as [|x pre IH]; [reflexivity|].
  cbn [app prefix_of]. rewrite join_cons by (destruct pre, rest; congruence || discriminate).
  now rewrite IH, <- app_assoc.
Qed.

Lemma split_prefix_of (pre : list jsstring) :
  Forall (fun seg => existsb is_slash seg = false) pre ->
  split is_slash (prefix_of pre) = pre ++ [[]].
Proof.
  induction pre as [|s pre IH]; intros H; [reflexivity|].
  inversion H; subst. cbn [prefix_of app].
  rewrite split_app_sep by (assumption || reflexivity).
  now rewrite IH.
Qed.

(** ** [path.relative] from a folder of a nested build *)

Lemma normalize_app (segs rest stack : list jsstring) :
  forallb ordinary_segment segs = true ->
  path.normalize stack (segs ++ rest) = path.normalize (rev segs ++ stack) rest.
Proof.
  revert stack; induction segs as [|s segs IH]; intros stack H; [reflexivity|].
  cbn [forallb] in H. apply andb_true_iff in H as [Hs Hr].
  unfold ordinary_segment in Hs. apply negb_true_iff in Hs.
  apply orb_false_iff in Hs as [Hs Hdd].
  cbn [app path.normalize]. rewrite Hs, Hdd, IH by assumption.
  cbn [rev]. now rewrite <- app_assoc.
Qed.

Lemma ordinary_not_nil (s : jsstring) : ordinary_segment s = true -> s <> [].
Proof. intros H ->. discriminate. Qed.

Lemma resolve_prefix_of (cwd pre : list jsstring) :
  forallb ordinary_segment pre = true ->
  Forall (fun seg => existsb is_slash seg = false) pre ->
  path.resolve cwd (prefix_of pre) = cwd ++ pre.
Proof.
  intros Ho Hs. unfold path.resolve.
  destruct pre as [|s pre']; [now rewrite app_nil_r|].
  set (pre := s :: pre') in *.
  assert (Hhd : exists c r, prefix_of pre = c :: r /\ is_slash c = false).
  { unfold pre in *. cbn [forallb] in Ho. apply andb_true_iff in Ho as [Ho _].
    apply ordinary_not_nil in Ho. inversion Hs as [|? ? Hss _]; subst.
    destruct s as [|c s']; [congruence|]. cbn [prefix_of app].
    exists c. eexists. split; [reflexivity|].
    cbn [existsb] in Hss. now apply orb_false_iff in Hss as [? _]. }
  destruct Hhd as (c & r & Hp & Hc).
  rewrite Hp, Hc, <- Hp, split_prefix_of by assumption.
  rewrite normalize_app by assumption. cbn [path.normalize str_eqb orb].
  now rewrite rev_app_distr, !rev_involutive.
Qed.

Lemma resolve_ordinary (cwd : list jsstring) (p : jsstring) :
  forallb ordinary_segment (split is_slash p) = true ->
  path.resolve cwd p = cwd ++ split is_slash p.
Proof.
  intros Ho. unfold path.resolve.
  destruct p as [|c p']; [discriminate|].
  assert (Hc : is_slash c = false).
  { destruct (is_slash c) eqn:E; [|reflexivity].
    cbn [split] in Ho. rewrite E in Ho. discriminate. }
  rewrite Hc, normalize_ordinary by assumption.
  now rewrite rev_involutive.
Qed.

(** From the folder reached through [pre], the relative path of a file is
    what is left of its segments. *)
Lemma relative_below (cwd pre rest : list jsstring) (p : jsstring) :
  split is_slash p = pre ++ rest ->
  forallb ordinary_segment (split is_slash p) = true ->
  path.relative cwd (prefix_of pre) p = join rest.
Proof.
  intros Hsplit Ho. unfold path.relative.
  pose proof (split_segments_no_sep is_slash p) as Hns.
  rewrite Hsplit in Hns. apply Forall_app in Hns as [Hpre _].
  rewrite resolve_ordinary with (p := p) by assumption.
  rewrite Hsplit in Ho. rewrite forallb_app in Ho.
  apply andb_true_iff in Ho as [Hop _].
  rewrite resolve_prefix_of by assumption.
  rewrite Hsplit, app_assoc, drop_common_app. reflexivity.
Qed.

Lemma no_any_slash (seg : jsstring) :
  existsb is_slash seg = false ->
  existsb (N.eqb CHAR_BACKWARD_SLASH) seg = false ->
  existsb is_any_slash seg = false.
Proof.
  induction seg as [|c seg IH]; [reflexivity|].
  cbn [existsb]. intros H1 H2.
  apply orb_false_iff in H1 as [Hc1 Hs1]. apply orb_false_iff in H2 as [Hc2 Hs2].
  rewrite (IH Hs1 Hs2), orb_false_r. unfold is_any_slash, is_slash in *.
  rewrite N.eqb_sym in Hc2. now rewrite Hc1, Hc2.
Qed.

(** For a clean path, the insertion done when nesting the folder reached
    through [pre] walks the segments that come after [pre]. *)
Lemma buildOneFileWithFolder_below (cwd pre rest : list jsstring)
      (file : git.CommittedFile) (parent : FolderItem) :
  clean_path (git.gitRelativePath file) = true ->
  split is_slash (git.gitRelativePath file) = pre ++ rest ->
  rest <> [] ->
  buildOneFileWithFolder cwd parent file (prefix_of pre)
  = insert_below pre (prefix_of pre) parent file.
Proof.
  intros Hclean Hsplit Hne. unfold clean_path in Hclean.
  apply andb_true_iff in Hclean as [Ho Hb]. apply negb_true_iff in Hb.
  unfold buildOneFileWithFolder, insert_below.
  rewrite Hsplit, skipn_prefix.
  destruct pre as [|s pre'].
  - reflexivity.
  - assert (Ht : truthy (prefix_of (s :: pre')) = true).
    { cbn [prefix_of]. now destruct s. }
    rewrite Ht, (relative_below cwd (s :: pre') rest) by assumption.
    rewrite split_join; [reflexivity|reflexivity|assumption|].
    pose proof (split_segments_no_sep is_slash (git.gitRelativePath file)) as H1.
    pose proof (split_segments_avoid is_slash (N.eqb CHAR_BACKWARD_SLASH) _ Hb) as H2.
    rewrite Hsplit in H1, H2.
    apply Forall_app in H1 as [_ H1]. apply Forall_app in H2 as [_ H2].
    rewrite Forall_forall in *. intros seg Hin.
    apply no_any_slash; auto.
Qed.

(** ** Toggling the folders of a nested build of clean paths *)

Lemma fold_left_ext_in {A B} (f g : A -> B -> A) (l : list B) :
  (forall x, In x l -> forall a, f a x = g a x) ->
  forall a, fold_left f l a = fold_left g l a.
Proof.
  induction l as [|x l IH]; intros H a; cbn [fold_left]; [reflexivity|].
  rewrite (H x (or_introl eq_refl)). apply IH. intros y Hy. apply H. now right.
Qed.

Lemma replace_backslashes_none (s : jsstring) :
  existsb (N.eqb CHAR_BACKWARD_SLASH) s = false -> replace_backslashes s = s.
Proof.
  induction s as [|c s IH]; [reflexivity|].
  cbn [existsb]. intros H. apply orb_false_iff in H as [Hc Hs].
  unfold replace_backslashes in *. cbn [map].
  rewrite N.eqb_sym in Hc. now rewrite Hc, (IH Hs).
Qed.

Lemma existsb_app_false {A} (f : A -> bool) (a b : list A) :
  existsb f (a ++ b) = false -> existsb f b = false.
Proof. rewrite existsb_app. intros H. now apply orb_false_iff in H as [_ ?]. Qed.

(** What the proofs below need of a folder of a nested build: its shape,
    its path, and clean paths for the files below it. *)
Lemma nested_folder_inside (folder : FolderItem) :
  forall pre,
    canonical pre folder ->
    gitRelativePath folder = prefix_of pre ->
    Forall (fun f => clean_path (file_gitRelativePath f) = true) (all_files folder) ->
    forall inner,
      In inner (all_folders folder) ->
      exists pre',
        canonical pre' inner /\
        gitRelativePath inner = prefix_of pre' /\
        Forall (fun f => clean_path (file_gitRelativePath f) = true) (all_files inner).
Proof.
  induction folder as [p l icon subs fs IH] using FolderItem_ind.
  intros pre Hc Hp Hclean inner Hin.
  cbn [all_folders subFolders] in Hin. destruct Hin as [<-|Hin]; [eauto|].
  apply in_flat_map in Hin as (sub & Hsub & Hin).
  pose proof Hc as Hc'. apply canonical_inv in Hc' as (_ & _ & Hsubs).
  rewrite Forall_forall in IH, Hsubs.
  destruct (Hsubs sub Hsub) as (Hcs & Hps & _).
  apply (IH sub Hsub (pre ++ [label sub])); auto.
  - cbn [gitRelativePath] in Hp. now rewrite prefix_of_app, <- Hp.
  - rewrite all_files_unfold in Hclean. apply Forall_app in Hclean as [_ Hbelow].
    rewrite Forall_forall in *. intros f Hf. apply Hbelow.
    apply in_flat_map. eauto.
Qed.

Lemma nest_canonical (cwd : list jsstring) (folder : FolderItem) :
  forall pre,
    canonical pre folder ->
    gitRelativePath folder = prefix_of pre ->
    Forall (fun f => clean_path (file_gitRelativePath f) = true) (all_files folder) ->
    buildFilesWithFolder cwd folder = folder.
Proof.
  induction folder as [p l icon subs fs IH] using FolderItem_ind.
  intros pre Hc Hp Hclean. cbn [gitRelativePath] in Hp. subst p.
  pose proof Hc as Hc'. apply canonical_inv in Hc' as (Hfs & _ & Hsubs).
  rewrite all_files_unfold in Hclean. apply Forall_app in Hclean as [Hown Hbelow].
  cbn [buildFilesWithFolder gitRelativePath label iconPath subFolders files].
  assert (Hsame : map (buildFilesWithFolder cwd) subs = subs).
  { rewrite <- (map_id subs) at 2. apply map_ext_in. intros sub Hin.
    rewrite Forall_forall in IH, Hsubs.
    destruct (Hsubs sub Hin) as (Hcs & Hps & _).
    apply (IH sub Hin (pre ++ [label sub])); auto.
    - now rewrite prefix_of_app.
    - rewrite Forall_forall in *. intros f Hf. apply Hbelow.
      apply in_flat_map. eauto. }
  rewrite Hsame.
  rewrite (fold_left_ext_in
             (fun root file =>
                buildOneFileWithFolder cwd root (as_git file) (prefix_of pre))
             (fun root file => insert_below pre (prefix_of pre) root (as_git file))).
  - rewrite (fold_left_through_map (insert_below pre (prefix_of pre)) as_git).
    now rewrite insert_own_files.
  - intros f Hf root. rewrite Forall_forall in Hfs, Hown.
    apply buildOneFileWithFolder_below with (rest := [file_label f]);
      cbn [as_git git.gitRelativePath]; auto. discriminate.
Qed.

Lemma toggle_canonical (cwd : list jsstring) (folder : FolderItem) :
  forall pre,
    canonical pre folder ->
    gitRelativePath folder = prefix_of pre ->
    Forall (fun f => clean_path (file_gitRelativePath f) = true) (all_files folder) ->
    showFilesWithFolder cwd (showFilesWithoutFolder cwd folder) = folder.
Proof.
  intros pre Hc Hp Hclean.
  pose proof (canonical_files_split Hc) as Hsplit.
  pose proof (rebuild Hc) as Hre.
  destruct folder as [p l icon subs fs]. cbn [gitRelativePath] in Hp. subst p.
  unfold showFilesWithFolder, showFilesWithoutFolder.
  cbn [buildFilesWithFolder gitRelativePath label iconPath subFolders files map] in *.
  rewrite flatten_files.
  rewrite all_files_unfold, emptied_unfold in *.
  rewrite (fold_left_ext_in
             (fun root file =>
                buildOneFileWithFolder cwd root (as_git file) (prefix_of pre))
             (fun root file => insert_below pre (prefix_of pre) root (as_git file))).
  - rewrite (fold_left_through_map (insert_below pre (prefix_of pre)) as_git).
    rewrite map_app, map_map. rewrite map_app in Hre. exact Hre.
  - intros f Hf root.
    assert (Hin : exists f0, In f0 (fs ++ flat_map all_files subs)
                             /\ as_git f = as_git f0).
    { apply in_app_or in Hf as [Hf|Hf].
      - exists f. split; [apply in_or_app; now left|reflexivity].
      - apply in_map_iff in Hf as (f0 & <- & Hf0).
        exists f0. split; [apply in_or_app; now right|reflexivity]. }
    destruct Hin as (f0 & Hf0 & ->).
    rewrite Forall_forall in Hsplit, Hclean.
    destruct (Hsplit f0 Hf0) as (rest & Hne & Hs).
    apply buildOneFileWithFolder_below with (rest := rest);
      cbn [as_git git.gitRelativePath]; auto.
Qed.

Lemma flatten_labels_canonical (cwd : list jsstring) (folder : FolderItem) :
  forall pre,
    canonical pre folder ->
    gitRelativePath folder = prefix_of pre ->
    Forall (fun f => clean_path (file_gitRelativePath f) = true) (all_files folder) ->
    files (showFilesWithoutFolder cwd folder)
    = files folder
      ++ map (fun f =>
                set_label
                  (getFormatedLabel
                     (skipn (length (gitRelativePath folder)) (file_gitRelativePath f)))
                  f)
             (flat_map all_files (subFolders folder)).
Proof.
  intros pre Hc Hp Hclean.
  pose proof (canonical_files_split Hc) as Hsplit.
  destruct folder as [p l icon subs fs]. cbn [gitRelativePath] in Hp. subst p.
  unfold showFilesWithoutFolder. cbn [files subFolders gitRelativePath].
  rewrite flatten_files. f_equal. apply map_ext_in. intros f Hf.
  rewrite all_files_unfold in *. rewrite Forall_forall in Hsplit, Hclean.
  assert (Hin : In f (fs ++ flat_map all_files subs)) by (apply in_or_app; now right).
  destruct (Hsplit f Hin) as (rest & Hne & Hs).
  pose proof (Hclean f Hin) as Hcl. unfold clean_path in Hcl.
  apply andb_true_iff in Hcl as [Ho Hb]. apply negb_true_iff in Hb.
  unfold relabel. rewrite (relative_below cwd pre rest) by assumption.
  assert (Hpath : file_gitRelativePath f = prefix_of pre ++ join rest).
  { now rewrite <- (join_split (file_gitRelativePath f)), Hs, join_below. }
  rewrite Hpath, skipn_prefix.
  rewrite replace_backslashes_none; [reflexivity|].
  rewrite Hpath in Hb. now apply existsb_app_false in Hb.
Qed.

Lemma nested_build_clean (cwd : list jsstring) (label0 : jsstring)
      (committedFiles : list git.CommittedFile) :
  Forall (fun file => clean_path (git.gitRelativePath file) = true) committedFiles ->
  Forall (fun f => clean_path (file_gitRelativePath f) = true)
         (all_files (buildCommitFolder cwd label0 committedFiles true)).
Proof.
  intros H.
  pose proof (nested_build_files cwd label0 committedFiles) as Hp.
  apply Permutation_sym in Hp.
  pose proof (Permutation_Forall Hp H) as Hall.
  now rewrite Forall_map in Hall.
Qed.

(** X17.  When the paths of the records are clean (no empty, ["."] or
    [".."] segment and no backslash), nesting any folder of the nested
    build changes nothing: the folder is already nested. *)
Theorem nest_nested_build_unchanged (cwd : list jsstring) (label0 : jsstring)
        (committedFiles : list git.CommittedFile) (folder : FolderItem) :
  Forall (fun file => clean_path (git.gitRelativePath file) = true) committedFiles ->
  In folder (all_folders (buildCommitFolder cwd label0 committedFiles true)) ->
  showFilesWithFolder cwd folder = folder.
Proof.
  intros Hclean Hin.
  destruct (nested_folder_inside
              (nested_build_canonical cwd label0 committedFiles)
              (nested_build_path cwd label0 committedFiles)
              (nested_build_clean cwd label0 Hclean) folder Hin)
    as (pre & Hc & Hp & Hf).
  exact (nest_canonical cwd Hc Hp Hf).
Qed.

Lemma nest_nested_build_unchanged_witness :
  showFilesWithFolder [] example_src_folder = example_src_folder.
Proof.
  apply (@nest_nested_build_unchanged [] (js "Changes of Commit abc") example_records).
  - repeat constructor.
  - right. left. reflexivity.
Defined.

(** X18.  When the paths of the records are clean, flattening any folder
    of the nested build, the root or a folder below it, and nesting it
    again gives the folder back as it was. *)
Theorem toggle_any_folder_roundtrip (cwd : list jsstring) (label0 : jsstring)
        (committedFiles : list git.CommittedFile) (folder : FolderItem) :
  Forall (fun file => clean_path (git.gitRelativePath file) = true) committedFiles ->
  In folder (all_folders (buildCommitFolder cwd label0 committedFiles true)) ->
  showFilesWithFolder cwd (showFilesWithoutFolder cwd folder) = folder.
Proof.
  intros Hclean Hin.
  destruct (nested_folder_inside
              (nested_build_canonical cwd label0 committedFiles)
              (nested_build_path cwd label0 committedFiles)
              (nested_build_clean cwd label0 Hclean) folder Hin)
    as (pre & Hc & Hp & Hf).
  exact (toggle_canonical cwd Hc Hp Hf).
Qed.

Lemma toggle_any_folder_roundtrip_witness :
  subFolders (showFilesWithoutFolder [] example_deep_src_folder) = [] /\
  map file_label (files (showFilesWithoutFolder [] example_deep_src_folder))
  = [js "b.ts"; js "a.ts" ++ label_separator ++ js "ui"] /\
  showFilesWithFolder [] (showFilesWithoutFolder [] example_deep_src_folder)
  = example_deep_src_folder.
Proof.
  split; [reflexivity | split; [reflexivity |]].
  apply (@toggle_any_folder_roundtrip [] (js "Changes of Commit abc")
                                      example_deep_records).
  - repeat constructor.
  - right. left. reflexivity.
Defined.

(** X19.  When the paths of the records are clean, flattening any folder
    of the nested build labels every file it moves up with the formatted
    label of the file's path taken from that folder: the path of the file
    without the path of the folder in front. *)
Theorem flatten_labels_relative (cwd : list jsstring) (label0 : jsstring)
        (committedFiles : list git.CommittedFile) (folder : FolderItem) :
  Forall (fun file => clean_path (git.gitRelativePath file) = true) committedFiles ->
  In folder (all_folders (buildCommitFolder cwd label0 committedFiles true)) ->
  files (showFilesWithoutFolder cwd folder)
  = files folder
    ++ map (fun f =>
              set_label
                (getFormatedLabel
                   (skipn (length (gitRelativePath folder)) (file_gitRelativePath f)))
                f)
           (flat_map all_files (subFolders folder)).
Proof.
  intros Hclean Hin.
  destruct (nested_folder_inside
              (nested_build_canonical cwd label0 committedFiles)
              (nested_build_path cwd label0 committedFiles)
              (nested_build_clean cwd label0 Hclean) folder Hin)
    as (pre & Hc & Hp & Hf).
  exact (flatten_labels_canonical cwd Hc Hp Hf).
Qed.

Lemma flatten_labels_relative_witness :
  let root := buildCommitFolder [] (js "Changes of Commit abc") example_records true in
  files (showFilesWithoutFolder [] root)
  = files root
    ++ map (fun f =>
              set_label
                (getFormatedLabel
                   (skipn (length (gitRelativePath root)) (file_gitRelativePath f)))
                f)
           (flat_map all_files (subFolders root)).
Proof.
  apply (@flatten_labels_relative [] (js "Changes of Commit abc") example_records).
  - repeat constructor.
  - left. reflexivity.
Defined.

(** ** The focus folder, whatever the collaborators answer *)

Lemma buildFileTree_header (cwd : list jsstring) (root : FolderItem)
      (files0 : list git.CommittedFile) (withFolder : bool) :
  gitRelativePath (buildFileTree cwd root files0 withFolder) = gitRelativePath root /\
  label (buildFileTree cwd root files0 withFolder) = label root /\
  iconPath (buildFileTree cwd root files0 withFolder) = iconPath root.
Proof.
  destruct withFolder; [|repeat split].
  apply (fold_insert_header [] [] files0 root).
Qed.

Lemma buildCommitFolder_header (cwd : list jsstring) (label0 : jsstring)
      (committedFiles : list git.CommittedFile) (withFolder : bool) :
  gitRelativePath (buildCommitFolder cwd label0 committedFiles withFolder) = [] /\
  label (buildCommitFolder cwd label0 committedFiles withFolder) = label0 /\
  iconPath (buildCommitFolder cwd label0 committedFiles withFolder)
  = Some rootFolderIcon /\
  (withFolder = false ->
   subFolders (buildCommitFolder cwd label0 committedFiles withFolder) = []).
Proof.
  unfold buildCommitFolder.
  destruct (buildFileTree_header cwd (newFolderItem [] label0 (Some rootFolderIcon))
                                 committedFiles withFolder) as (-> & -> & ->).
  repeat split. intros ->. reflexivity.
Qed.

Lemma focus_files_with_filter (engine : RegExpEngine) (relativePath : jsstring)
      (committedFiles : list git.CommittedFile) :
  forall focus,
    focus_files_with engine relativePath committedFiles = Some focus ->
    focus
    = filter (fun file =>
                match search_with engine (git.gitRelativePath file) relativePath with
                | Some i => Z.eqb i 0
                | None => false
                end)
             committedFiles.
Proof.
  induction committedFiles as [|file rest IH]; intros focus H; cbn [focus_files_with] in H.
  - now injection H as <-.
  - cbn [filter].
    destruct (search_with engine (git.gitRelativePath file) relativePath) as [i|];
      [|discriminate].
    destruct (focus_files_with engine relativePath rest) as [kept|]; [|discriminate].
    injection H as <-. rewrite as_git_createCommittedFile, <- (IH kept eq_refl).
    reflexivity.
Qed.

(** Inside the fragment the engine is not asked. *)
Lemma focus_files_with_fragment (engine : RegExpEngine) (relativePath : jsstring)
      (committedFiles focus : list git.CommittedFile) :
  focus_files relativePath committedFiles = Some focus ->
  focus_files_with engine relativePath committedFiles = Some focus.
Proof.
  revert focus. induction committedFiles as [|file rest IH]; intros focus H;
    [exact H|].
  cbn [focus_files focus_files_with] in *. unfold RegExp.search, search_with in *.
  destruct (RegExp.parse relativePath) as [atoms|]; [|discriminate].
  destruct (focus_files relativePath rest) as [kept|]; [|discriminate].
  now rewrite (IH kept eq_refl).
Qed.

Lemma buildFocusFolder_with_fragment (cwd : list jsstring) (engine : RegExpEngine)
      (label0 : jsstring) (specifiedPath0 : Uri) (relativePath : jsstring)
      (isFile : bool) (committedFiles : list git.CommittedFile) (withFolder : bool)
      (folder : FolderItem) :
  buildFocusFolder cwd label0 specifiedPath0 relativePath isFile committedFiles withFolder
  = Some folder ->
  buildFocusFolder_with cwd engine label0 specifiedPath0 (Some relativePath)
                        (Some isFile) committedFiles withFolder
  = Some folder.
Proof.
  unfold buildFocusFolder_with. destruct isFile; [auto|].
  unfold buildFocusFolder.
  destruct (focus_files relativePath committedFiles) as [focus|] eqn:E; [|discriminate].
  now rewrite (focus_files_with_fragment engine _ _ E).
Qed.

Lemma buildFocusFolder_with_header (cwd : list jsstring) (engine : RegExpEngine)
      (label0 : jsstring) (specifiedPath0 : Uri) (relativePath : option jsstring)
      (lstat : option bool) (committedFiles : list git.CommittedFile)
      (withFolder : bool) (folder : FolderItem) :
  buildFocusFolder_with cwd engine label0 specifiedPath0 relativePath lstat
                        committedFiles withFolder = Some folder ->
  gitRelativePath folder = [] /\ label folder = label0 /\
  iconPath folder = Some rootFolderIcon /\
  (withFolder = false -> subFolders folder = []).
Proof.
  unfold buildFocusFolder_with.
  destruct relativePath as [relativePath0|]; [|discriminate].
  destruct lstat as [[|]|]; [| |discriminate].
  - intros H. injection H as <-. repeat split.
  - destruct (focus_files_with engine relativePath0 committedFiles) as [focus|];
      [|discriminate].
    intros H. injection H as <-.
    destruct (buildFileTree_header cwd (newFolderItem [] label0 (Some rootFolderIcon))
                                   focus withFolder) as (-> & -> & ->).
    repeat split. intros ->. reflexivity.
Qed.

Lemma buildFocusFolder_with_settles (cwd : list jsstring) (engine : RegExpEngine)
      (label0 : jsstring) (specifiedPath0 : Uri) (relativePath : option jsstring)
      (lstat : option bool) (committedFiles : list git.CommittedFile)
      (withFolder : bool) :
  if focus_settles engine relativePath lstat committedFiles
  then exists folder,
      buildFocusFolder_with cwd engine label0 specifiedPath0 relativePath lstat
                            committedFiles withFolder = Some folder
  else buildFocusFolder_with cwd engine label0 specifiedPath0 relativePath lstat
                             committedFiles withFolder = None.
Proof.
  unfold focus_settles, buildFocusFolder_with.
  destruct relativePath as [relativePath0|]; [|reflexivity].
  destruct lstat as [[|]|]; [| |reflexivity].
  - eexists. reflexivity.
  - destruct (focus_files_with engine relativePath0 committedFiles); [|reflexivity].
    eexists. reflexivity.
Qed.

(** X4.  In the directory case, whatever the focus path compiles to as a
    regular expression, whenever [buildFocusFolder] produces a folder it is
    built like a commit root over some of the records, taken in their
    order: no record is invented, repeated or moved. *)
Theorem focus_directory_is_a_selection
        (cwd : list jsstring) (engine : RegExpEngine) (label0 : jsstring)
        (specifiedPath0 : Uri) (relativePath : jsstring)
        (committedFiles : list git.CommittedFile) (withFolder : bool)
        (folder : FolderItem) :
  buildFocusFolder_with cwd engine label0 specifiedPath0 (Some relativePath)
                        (Some false) committedFiles withFolder
  = Some folder ->
  exists keep,
    folder = buildCommitFolder cwd label0 (filter keep committedFiles) withFolder.
Proof.
  unfold buildFocusFolder_with.
  destruct (focus_files_with engine relativePath committedFiles) as [focus|] eqn:E;
    [|discriminate].
  intros H. injection H as <-.
  rewrite (focus_files_with_filter _ _ _ E). eexists. reflexivity.
Qed.

Lemma focus_directory_is_a_selection_witness :
  let records :=
    [ git.mk (mkUri (js "/repo/aab/y.ts")) (js "aab/y.ts") (Some (js "M"));
      git.mk (mkUri (js "/repo/src/a.ts")) (js "src/a.ts") (Some (js "A")) ] in
  exists keep,
    buildCommitFolder [] (js "Focus") (firstn 1 records) true
    = buildCommitFolder [] (js "Focus") (filter keep records) true.
Proof.
  apply (@focus_directory_is_a_selection [] example_engine (js "Focus")
           (mkUri (js "/repo/a+b")) (js "a+b")).
  reflexivity.
Defined.

(** ** Rebuilds, turn by turn *)

Lemma current_after_push (p : Provider) (f : FolderItem) :
  current (mkProvider (store (rootFolder_ref p) (current p ++ [f]) (arrays p))
                      (allocated p) (rootFolder_ref p))
  = current p ++ [f].
Proof. unfold current, store. cbn. now rewrite Nat.eqb_refl. Qed.

Lemma current_after_new (p : Provider) :
  current (mkProvider (store (allocated p) [] (arrays p)) (S (allocated p)) (allocated p))
  = [].
Proof. unfold current, store. cbn. now rewrite Nat.eqb_refl. Qed.

(** The turn that pushes a root and notifies, from any state. *)
Lemma push_then_fire (root : FolderItem) (s : rebuild_state) :
  current (fst (fst (run_turn [PushCurrent root; Fire] s))) = current (fst s) ++ [root] /\
  snd (run_turn [PushCurrent root; Fire] s) = [current (fst s) ++ [root]].
Proof.
  destruct s as [p bound]. cbn [run_turn step fst snd app].
  now rewrite current_after_push.
Qed.

(** C3 (as amended).  On every rebuild the first turn puts a new, empty
    root sequence in place before the change list is requested, and
    whatever it notifies, it notifies with the empty sequence; without a
    right reference that turn is the whole rebuild, and it ends with the
    notification.  When the view context has no specified path and the
    change list arrives, the rebuild has one more turn: it pushes the root
    folder of the rebuild onto the root sequence then in place and fires
    the notification after the push, with that root at the end of the
    sequence, whatever has run in between. *)
Theorem C3_rebuild_turns
        (cwd : list jsstring) (engine : RegExpEngine) (context : FilesViewContext)
        (withFolder : bool) (committedFiles : option (list git.CommittedFile))
        (relativePath : option jsstring) (lstat : option bool) :
  let turns :=
    _update cwd engine context withFolder committedFiles relativePath lstat in
  (exists first later,
      turns = first :: later /\
      (first = [NewRootFolder] \/ first = [NewRootFolder; Fire] /\ later = []) /\
      forall s,
        current (fst (fst (run_turn first s))) = [] /\
        Forall (fun roots => roots = []) (snd (run_turn first s))) /\
  (truthy_ref (rightRef context) = false -> turns = [[NewRootFolder; Fire]]) /\
  (forall files0,
      specifiedPath context = None ->
      truthy_ref (rightRef context) = true ->
      committedFiles = Some files0 ->
      exists label0,
        expected_root_labels context = [label0] /\
        turns = [[NewRootFolder];
                 [PushCurrent (buildCommitFolder cwd label0 files0 withFolder); Fire]] /\
        forall s,
          let root := buildCommitFolder cwd label0 files0 withFolder in
          current (fst (fst (run_turn [PushCurrent root; Fire] s)))
          = current (fst s) ++ [root] /\
          snd (run_turn [PushCurrent root; Fire] s) = [current (fst s) ++ [root]]).
Proof.
  cbv zeta. unfold _update. split; [|split].
  - destruct (truthy_ref (rightRef context)); cbn [negb].
    + eexists; eexists. split; [reflexivity|]. split; [now left|].
      intros [p bound]. cbn [run_turn step fst snd app].
      rewrite current_after_new. split; [reflexivity|constructor].
    + eexists; eexists. split; [reflexivity|]. split; [right; now split|].
      intros [p bound]. cbn [run_turn step fst snd app].
      rewrite current_after_new. split; [reflexivity|].
      repeat constructor.
  - intros ->. reflexivity.
  - intros files0 Hp Hr ->. rewrite Hp, Hr. cbn [negb].
    unfold expected_root_labels. rewrite Hp, Hr. cbn [negb].
    destruct (truthy_ref (leftRef context)); cbn [negb];
      eexists; (split; [reflexivity|]); (split; [reflexivity|]);
      intros s; apply push_then_fire.
Qed.

(** The rebuilds for a commit alone and for two references push their root
    before they notify. *)
Lemma C3_rebuild_turns_witness :
  let commit :=
    buildCommitFolder [] (js "Changes of Commit abc") example_records true in
  let diff :=
    buildCommitFolder [] (js "Diffs between v1 and abc") example_records true in
  (_update [] example_engine commit_context true (Some example_records) None None
   = [[NewRootFolder]; [PushCurrent commit; Fire]] /\
   snd (run_turn [PushCurrent commit; Fire] (example_provider, None))
   = [current example_provider ++ [commit]]) /\
  (_update [] example_engine (mkContext (Some (js "v1")) (Some (js "abc")) None) true
           (Some example_records) None None
   = [[NewRootFolder]; [PushCurrent diff; Fire]] /\
   snd (run_turn [PushCurrent diff; Fire] (example_provider, None))
   = [current example_provider ++ [diff]]).
Proof.
  cbv zeta. split.
  - destruct (proj2 (proj2 (C3_rebuild_turns [] example_engine commit_context true
                              (Some example_records) None None))
                    example_records eq_refl eq_refl eq_refl)
      as (label0 & Hl & Ht & Hs).
    injection Hl as <-. split; [exact Ht|].
    exact (proj2 (Hs (example_provider, None))).
  - destruct (proj2 (proj2 (C3_rebuild_turns [] example_engine
                              (mkContext (Some (js "v1")) (Some (js "abc")) None) true
                              (Some example_records) None None))
                    example_records eq_refl eq_refl eq_refl)
      as (label0 & Hl & Ht & Hs).
    injection Hl as <-. split; [exact Ht|].
    exact (proj2 (Hs (example_provider, None))).
Defined.

(** C3, as stated, fails: while the change list is awaited the host sees
    the empty root sequence, which is neither the forest of before the
    rebuild nor the new one. *)
Lemma C3_reset_counterexample :
  ~ never_partial
      (_update [] example_engine commit_context true (Some example_records) None None)
      example_provider.
Proof.
  intros [H _]. cbn in H.
  inversion H as [|? ? [Hseen|Hseen] _]; subst; cbn in Hseen; discriminate.
Qed.

(** With a specified path and a right reference, the notification comes in
    the turn that follows the change list, while the builder of the focus
    tree is suspended. *)
Example update_fires_before_focus_roots :
  _update [] example_engine focus_context true (Some example_records)
          (Some (js "src")) (Some false)
  = [ [NewRootFolder];
      [BindRootFolder; Fire];
      [PushBound (buildCommitFolder [] (js "Focus") (firstn 2 example_records) true);
       PushCurrent (buildCommitFolder [] (js "Changes of Commit abc")
                                      example_records true)] ].
Proof. reflexivity. Qed.

(** Two rebuilds for a commit with a specified path, the second one started
    after the first has notified: the first pushes its focus root onto the
    array it was bound to and its commit root onto the array of the second,
    which then notifies with that commit root alone. *)
Example overlapping_rebuilds :
  let focus := buildCommitFolder [] (js "Focus") (firstn 2 example_records) true in
  let commit :=
    buildCommitFolder [] (js "Changes of Commit abc") example_records true in
  let s1 := fst (run_turn [NewRootFolder] (example_provider, None)) in
  let s2 := fst (run_turn [BindRootFolder; Fire] s1) in
  let other1 := fst (run_turn [NewRootFolder] (fst s2, None)) in
  let s3 := fst (run_turn [PushBound focus; PushCurrent commit] (fst other1, snd s2)) in
  snd (run_turn [BindRootFolder; Fire] (fst s3, snd other1)) = [[commit]].
Proof. reflexivity. Qed.

(** X7.  Without a right reference the rebuild is one turn, which makes no
    request: it puts an empty root sequence in place, whatever the provider
    showed before, and notifies once, with the empty sequence. *)
Theorem update_without_rightRef
        (cwd : list jsstring) (engine : RegExpEngine) (context : FilesViewContext)
        (withFolder : bool) (committedFiles : option (list git.CommittedFile))
        (relativePath : option jsstring) (lstat : option bool) (s : rebuild_state) :
  truthy_ref (rightRef context) = false ->
  let turns :=
    _update cwd engine context withFolder committedFiles relativePath lstat in
  turns = [[NewRootFolder; Fire]] /\
  fst (run_alone turns s) = [(Fired, []); (Suspended, [])] /\
  current (fst (snd (run_alone turns s))) = [].
Proof.
  intros H. cbv zeta. unfold _update. rewrite H. cbn [negb].
  split; [reflexivity|]. destruct s as [p bound].
  cbn [run_alone run_turn step fst snd app map].
  now rewrite current_after_new.
Qed.

Lemma update_without_rightRef_witness :
  fst (run_alone
         (_update [] example_engine (mkContext None (Some []) None) true
                  (Some example_records) None None)
         (example_provider, None))
  = [(Fired, []); (Suspended, [])].
Proof.
  apply (update_without_rightRef [] example_engine (mkContext None (Some []) None) true
                                 (Some example_records) None None
                                 (example_provider, None)).
  reflexivity.
Defined.

Lemma pushed_roots_of_update
      (cwd : list jsstring) (engine : RegExpEngine) (context : FilesViewContext)
      (withFolder : bool) (committedFiles : option (list git.CommittedFile))
      (relativePath : option jsstring) (lstat : option bool) :
  let roots :=
    pushed (_update cwd engine context withFolder committedFiles relativePath lstat) in
  (if rebuild_completes engine context committedFiles relativePath lstat
   then map label roots = expected_root_labels context
   else roots = []) /\
  Forall (fun root =>
            gitRelativePath root = [] /\
            iconPath root = Some rootFolderIcon /\
            (withFolder = false -> subFolders root = []))
         roots.
Proof.
  cbv zeta. unfold _update, expected_root_labels, rebuild_completes.
  destruct (truthy_ref (rightRef context)); cbn [negb andb];
    [|split; [reflexivity|constructor]].
  destruct committedFiles as [files0|]; [|split; [reflexivity|constructor]].
  destruct (specifiedPath context) as [specifiedPath0|].
  - destruct (truthy_ref (leftRef context)); cbn [negb].
    + pose proof (buildFocusFolder_with_settles cwd engine
                    (ref_text (leftRef context) ++ js " .. " ++ ref_text (rightRef context))
                    specifiedPath0 relativePath lstat files0 withFolder) as Hs.
      destruct (focus_settles engine relativePath lstat files0);
        [destruct Hs as [focus Hs]|]; rewrite Hs;
        [|split; [reflexivity|constructor]].
      destruct (buildFocusFolder_with_header _ _ _ _ _ _ _ _ Hs) as (Hp & Hl & Hi & Hf).
      cbn. rewrite Hl. split; [reflexivity|]. repeat constructor; assumption.
    + pose proof (buildFocusFolder_with_settles cwd engine (js "Focus")
                    specifiedPath0 relativePath lstat files0 withFolder) as Hs.
      destruct (focus_settles engine relativePath lstat files0);
        [destruct Hs as [focus Hs]|]; rewrite Hs;
        [|split; [reflexivity|constructor]].
      destruct (buildFocusFolder_with_header _ _ _ _ _ _ _ _ Hs) as (Hp & Hl & Hi & Hf).
      destruct (buildCommitFolder_header cwd
                  (js "Changes of Commit " ++ ref_text (rightRef context))
                  files0 withFolder) as (Cp & Cl & Ci & Cf).
      unfold pushed, _buildPathSpecifiedCommitTree, call_without_await.
      cbn [flat_map pushed_by app map]. rewrite Hl, Cl.
      split; [reflexivity|]. repeat constructor; assumption.
  - destruct (buildCommitFolder_header cwd
                (js "Changes of Commit " ++ ref_text (rightRef context))
                files0 withFolder) as (Cp & Cl & Ci & Cf).
    destruct (buildCommitFolder_header cwd
                (js "Diffs between " ++ ref_text (leftRef context) ++ js " and "
                    ++ ref_text (rightRef context))
                files0 withFolder) as (Dp & Dl & Di & Df).
    destruct (truthy_ref (leftRef context)); cbn [negb];
      unfold pushed, _buildCommitTree, _buildDiffBranchTree;
      cbn [flat_map pushed_by app map];
      [rewrite Dl|rewrite Cl]; (split; [reflexivity|]); repeat constructor; assumption.
Qed.



(** X10.  In the mode without folders, no root that a rebuild pushes has a
    subfolder, in any of its cases and whatever the collaborators answer:
    every file node is a direct child of its root. *)
Theorem update_flat_mode
        (cwd : list jsstring) (engine : RegExpEngine) (context : FilesViewContext)
        (committedFiles : option (list git.CommittedFile))
        (relativePath : option jsstring) (lstat : option bool) :
  Forall (fun root => subFolders root = [])
         (pushed (_update cwd engine context false committedFiles relativePath lstat)).
Proof.
  destruct (pushed_roots_of_update cwd engine context false committedFiles
                                   relativePath lstat) as (_ & Hall).
  eapply Forall_impl; [|exact Hall]. intros root (_ & _ & Hf). now apply Hf.
Qed.

(** X9.  With a specified path and a right reference, once the change
    list has arrived the rebuild notifies in that very turn, with the root
    sequence as it is then and before it has pushed anything.  Its roots
    are pushed in a later turn, which runs only when the focus folder is
    produced, and no notification follows them. *)
Theorem update_notifies_before_focus_roots
        (cwd : list jsstring) (engine : RegExpEngine) (context : FilesViewContext)
        (withFolder : bool) (files0 : list git.CommittedFile)
        (relativePath : option jsstring) (lstat : option bool) (specifiedPath0 : Uri) :
  specifiedPath context = Some specifiedPath0 ->
  truthy_ref (rightRef context) = true ->
  exists later,
    _update cwd engine context withFolder (Some files0) relativePath lstat
    = [NewRootFolder] :: [BindRootFolder; Fire] :: later /\
    existsb fires (concat later) = false /\
    (if focus_settles engine relativePath lstat files0
     then length later = 1 /\ pushed later <> []
     else later = []) /\
    forall s,
      snd (run_turn [BindRootFolder; Fire] s) = [current (fst s)] /\
      fst (fst (run_turn [BindRootFolder; Fire] s)) = fst s.
Proof.
  intros Hp Hr. unfold _update. rewrite Hp, Hr. cbn [negb].
  assert (Hturn : forall s,
             snd (run_turn [BindRootFolder; Fire] s) = [current (fst s)] /\
             fst (fst (run_turn [BindRootFolder; Fire] s)) = fst s)
    by (intros [p bound]; split; reflexivity).
  destruct (truthy_ref (leftRef context)); cbn [negb].
  - pose proof (buildFocusFolder_with_settles cwd engine
                  (ref_text (leftRef context) ++ js " .. " ++ ref_text (rightRef context))
                  specifiedPath0 relativePath lstat files0 withFolder) as Hs.
    destruct (focus_settles engine relativePath lstat files0);
      [destruct Hs as [focus Hs]|]; rewrite Hs;
      eexists; (split; [reflexivity|]); (split; [reflexivity|]);
      (split; [|exact Hturn]); [split; [reflexivity|discriminate]|reflexivity].
  - pose proof (buildFocusFolder_with_settles cwd engine (js "Focus")
                  specifiedPath0 relativePath lstat files0 withFolder) as Hs.
    destruct (focus_settles engine relativePath lstat files0);
      [destruct Hs as [focus Hs]|]; rewrite Hs;
      eexists; (split; [reflexivity|]); (split; [reflexivity|]);
      (split; [|exact Hturn]); [split; [reflexivity|discriminate]|reflexivity].
Qed.

Lemma update_notifies_before_focus_roots_witness :
  exists later,
    _update [] example_engine focus_context true (Some example_records)
            (Some (js "src")) (Some false)
    = [NewRootFolder] :: [BindRootFolder; Fire] :: later /\
    existsb fires (concat later) = false.
Proof.
  destruct (update_notifies_before_focus_roots
              [] example_engine focus_context true example_records
              (Some (js "src")) (Some false) eq_refl eq_refl)
    as (later & Hturns & Hfires & _).
  exists later. split; assumption.
Defined.

(** X21.  For a commit with a specified path, the last turn pushes the
    focus root onto the array that was the root sequence when the rebuild
    notified, and the commit root onto the array that is the root sequence
    now.  When another rebuild has put a new array in place in between,
    only the commit root reaches the sequence the provider shows. *)
Theorem overlapped_rebuild_loses_focus_root
        (cwd : list jsstring) (engine : RegExpEngine) (context : FilesViewContext)
        (withFolder : bool) (files0 : list git.CommittedFile)
        (relativePath : option jsstring) (lstat : option bool) (specifiedPath0 : Uri) :
  specifiedPath context = Some specifiedPath0 ->
  truthy_ref (leftRef context) = false ->
  truthy_ref (rightRef context) = true ->
  focus_settles engine relativePath lstat files0 = true ->
  exists focus commit,
    _update cwd engine context withFolder (Some files0) relativePath lstat
    = [[NewRootFolder]; [BindRootFolder; Fire]; [PushBound focus; PushCurrent commit]] /\
    label focus = js "Focus" /\
    label commit = js "Changes of Commit " ++ ref_text (rightRef context) /\
    forall p r,
      r <> rootFolder_ref p ->
      let after := fst (fst (run_turn [PushBound focus; PushCurrent commit] (p, Some r))) in
      current after = current p ++ [commit] /\
      arrays after r = arrays p r ++ [focus].
Proof.
  intros Hp Hl Hr Hs. unfold _update. rewrite Hp, Hl, Hr. cbn [negb].
  pose proof (buildFocusFolder_with_settles cwd engine (js "Focus")
                specifiedPath0 relativePath lstat files0 withFolder) as Hf.
  rewrite Hs in Hf. destruct Hf as [focus Hf]. rewrite Hf.
  destruct (buildFocusFolder_with_header _ _ _ _ _ _ _ _ Hf) as (_ & Hfl & _).
  destruct (buildCommitFolder_header cwd
              (js "Changes of Commit " ++ ref_text (rightRef context))
              files0 withFolder) as (_ & Hcl & _).
  eexists; eexists. split; [reflexivity|]. split; [exact Hfl|]. split; [exact Hcl|].
  intros p r Hne. cbv zeta.
  generalize (buildCommitFolder cwd (js "Changes of Commit " ++ ref_text (rightRef context))
                                files0 withFolder).
  intros commit. cbn [run_turn step fst snd].
  unfold current, store. cbn [arrays rootFolder_ref allocated].
  rewrite Nat.eqb_refl.
  apply Nat.eqb_neq in Hne. rewrite Nat.eqb_sym in Hne. rewrite Hne.
  rewrite Nat.eqb_sym in Hne. rewrite Hne, Nat.eqb_refl. split; reflexivity.
Qed.

Lemma overlapped_rebuild_loses_focus_root_witness :
  let first := fst (run_turn [NewRootFolder] (example_provider, None)) in
  let second := fst (run_turn [NewRootFolder] (fst first, None)) in
  exists focus commit,
    _update [] example_engine focus_context true (Some example_records)
            (Some (js "src")) (Some false)
    = [[NewRootFolder]; [BindRootFolder; Fire]; [PushBound focus; PushCurrent commit]] /\
    label focus = js "Focus" /\
    let after :=
      fst (fst (run_turn [PushBound focus; PushCurrent commit]
                         (fst second, Some (rootFolder_ref (fst first))))) in
    current after = [commit] /\
    arrays after (rootFolder_ref (fst first)) = [focus].
Proof.
  cbv zeta.
  destruct (overlapped_rebuild_loses_focus_root
              [] example_engine focus_context true example_records
              (Some (js "src")) (Some false) eq_refl eq_refl eq_refl eq_refl)
    as (focus & commit & Hturns & Hlabel & _ & Hpush).
  exists focus, commit. split; [exact Hturns|]. split; [exact Hlabel|].
  apply (Hpush (fst (fst (run_turn [NewRootFolder]
                                   (fst (fst (run_turn [NewRootFolder]
                                                       (example_provider, None))),
                                    None))))
               (rootFolder_ref (fst (fst (run_turn [NewRootFolder]
                                                   (example_provider, None)))))).
  discriminate.
Defined.


(** ** Walking the tree through [getChildren] *)

Lemma collect_files {A} (fs : list A) :
  collect (map (fun f => Some [f]) fs) = Some fs.
Proof.
  induction fs as [|f fs IH]; [reflexivity|].
  cbn [map collect]. rewrite IH. reflexivity.
Qed.

Lemma collect_children {A B} (g : B -> option (list A)) (h : B -> list A)
      (subs : list B) (fs : list A) :
  Forall (fun sub => exists found, g sub = Some found /\ Permutation found (h sub)) subs ->
  exists found,
    collect (map g subs ++ map (fun f => Some [f]) fs) = Some found /\
    Permutation found (fs ++ flat_map h subs).
Proof.
  induction 1 as [|sub subs (found & Hg & Hp) _ (rest & Hc & Hr)].
  - exists fs. cbn [map app flat_map]. rewrite collect_files, app_nil_r. now split.
  - exists (found ++ rest). cbn [map app collect flat_map]. rewrite Hg, Hc. split; [reflexivity|].
    rewrite (Permutation_app Hp Hr).
    rewrite !app_assoc. apply Permutation_app_tail, Permutation_app_comm.
Qed.

Lemma height_sub (sub : FolderItem) (subs : list FolderItem) :
  In sub subs -> height sub <= list_max (map height subs).
Proof.
  induction subs as [|x subs IH]; intros Hin; [destruct Hin|].
  change (list_max (map height (x :: subs)))
    with (Nat.max (height x) (list_max (map height subs))).
  destruct Hin as [-> | Hin].
  - apply Nat.le_max_l.
  - etransitivity; [apply IH, Hin | apply Nat.le_max_r].
Qed.

(** X20.  A host that starts at a folder and asks [getChildren] again for
    every folder it is given meets no [undefined] entry and, once it has
    gone as deep as the tree is high, has reached every file below the
    folder, each one once. *)
Theorem getChildren_reaches_every_file (roots : list FolderItem) (folder : FolderItem)
        (fuel : nat) :
  height folder < fuel ->
  exists found,
    leaves fuel roots (Child (ItemFolder folder)) = Some found /\
    Permutation found (all_files folder).
Proof.
  revert fuel.
  induction folder as [p l icon subs fs IH] using FolderItem_ind.
  intros fuel Hfuel.
  destruct fuel as [|fuel]; [inversion Hfuel|].
  change (height (mkFolder p l icon subs fs))
    with (S (list_max (map height subs))) in Hfuel.
  change (leaves (S fuel) roots (Child (ItemFolder (mkFolder p l icon subs fs))))
    with (collect (map (leaves fuel roots)
                       (map (fun f => Child (ItemFolder f)) subs
                        ++ map (fun f => Child (ItemFile f)) fs))).
  rewrite map_app, !map_map.
  assert (Hfiles : map (fun f => leaves fuel roots (Child (ItemFile f))) fs
                   = map (fun f => Some [f]) fs).
  { apply map_ext. intros f. destruct fuel as [|fuel']; [lia | reflexivity]. }
  rewrite Hfiles.
  rewrite all_files_unfold.
  apply collect_children.
  rewrite Forall_forall in IH |- *.
  intros sub Hin. apply (IH sub Hin).
  pose proof (height_sub sub subs Hin). lia.
Qed.

Lemma getChildren_reaches_every_file_witness :
  exists found,
    leaves 3 [buildCommitFolder [] (js "Changes of Commit abc") example_deep_records true]
           (Child (ItemFolder example_deep_src_folder)) = Some found /\
    Permutation found (all_files example_deep_src_folder).
Proof.
  apply getChildren_reaches_every_file. vm_compute. lia.
Defined.


(** ** Labels after any number of toggles *)

Lemma toggled_inv (pre : list jsstring) (p l : jsstring) (icon : option FolderIcon)
      (subs : list FolderItem) (fs : list CommittedFile) :
  toggled pre (mkFolder p l icon subs fs) ->
  p = prefix_of pre /\
  Forall (fun f =>
            exists rest,
              rest <> [] /\
              split is_slash (file_gitRelativePath f) = pre ++ rest /\
              (rest = [file_label f] \/
               file_label f = getFormatedLabel (join rest)))
         fs /\
  NoDup (map label subs) /\
  Forall (fun sub =>
            toggled (pre ++ [label sub]) sub /\
            iconPath sub = None /\
            all_files sub <> [])
         subs.
Proof. intros H. inversion H; subst. auto. Qed.

Lemma toggled_files_split (folder : FolderItem) :
  forall pre,
    toggled pre folder ->
    Forall (fun f => exists rest,
                rest <> [] /\ split is_slash (file_gitRelativePath f) = pre ++ rest)
           (all_files folder).
Proof.
  induction folder as [p l icon subs fs IH] using FolderItem_ind.
  intros pre Ht. apply toggled_inv in Ht as (_ & Hfs & _ & Hsubs).
  rewrite all_files_unfold. apply Forall_app. split.
  - rewrite Forall_forall in *. intros f Hf.
    destruct (Hfs f Hf) as (rest & Hne & Hs & _). eauto.
  - rewrite Forall_forall in *. intros f Hf.
    apply in_flat_map in Hf as (sub & Hsub & Hf).
    destruct (Hsubs sub Hsub) as (Hts & _).
    specialize (IH sub Hsub _ Hts). rewrite Forall_forall in IH.
    destruct (IH f Hf) as (rest & Hne & Hs).
    exists (label sub :: rest). split; [discriminate|].
    now rewrite Hs, <- app_assoc.
Qed.

Lemma canonical_toggled (folder : FolderItem) :
  forall pre,
    canonical pre folder ->
    gitRelativePath folder = prefix_of pre ->
    toggled pre folder.
Proof.
  induction folder as [p l icon subs fs IH] using FolderItem_ind.
  intros pre Hc Hp. cbn [gitRelativePath] in Hp. subst p.
  apply canonical_inv in Hc as (Hfs & Hnd & Hsubs).
  constructor; [|assumption|].
  - rewrite Forall_forall in *. intros f Hf.
    exists [file_label f]. split; [discriminate|]. split; [now apply Hfs | now left].
  - rewrite Forall_forall in *. intros sub Hsub.
    destruct (Hsubs sub Hsub) as (Hcs & Hps & Hi & Hn).
    repeat split; auto.
    apply (IH sub Hsub); [assumption|]. now rewrite prefix_of_app.
Qed.

Lemma flat_build_toggled (cwd : list jsstring) (label0 : jsstring)
      (committedFiles : list git.CommittedFile) :
  toggled [] (buildCommitFolder cwd label0 committedFiles false).
Proof.
  unfold buildCommitFolder, buildFileTree, newFolderItem, set_files.
  cbn [files gitRelativePath label iconPath subFolders app].
  apply (@toggled_intro [] label0 (Some rootFolderIcon) []
                        (map createCommittedFile committedFiles));
    [|constructor|constructor].
  apply Forall_map. rewrite Forall_forall. intros file _.
  exists (split is_slash (git.gitRelativePath file)).
  split; [apply split_not_nil|]. split; [reflexivity|]. right.
  cbn [createCommittedFile file_label]. now rewrite join_split.
Qed.

Lemma clean_files_below (sub : FolderItem) (subs : list FolderItem)
      (fs : list CommittedFile) (P : CommittedFile -> Prop) :
  In sub subs ->
  Forall P (fs ++ flat_map all_files subs) ->
  Forall P (all_files sub).
Proof.
  intros Hin H. apply Forall_app in H as [_ H].
  rewrite Forall_forall in *. intros f Hf. apply H. apply in_flat_map. eauto.
Qed.

(** Flattening a folder keeps it in shape. *)
Lemma flatten_toggled (cwd : list jsstring) (folder : FolderItem) (pre : list jsstring) :
  toggled pre folder ->
  Forall (fun f => clean_path (file_gitRelativePath f) = true) (all_files folder) ->
  toggled pre (showFilesWithoutFolder cwd folder).
Proof.
  intros Ht Hclean.
  pose proof (toggled_files_split Ht) as Hsplit.
  destruct folder as [p l icon subs fs].
  apply toggled_inv in Ht as (-> & Hfs & _ & _).
  unfold showFilesWithoutFolder. cbn [gitRelativePath label iconPath subFolders files].
  rewrite flatten_files.
  constructor; [|constructor|constructor].
  apply Forall_app. split; [assumption|].
  apply Forall_map. rewrite all_files_unfold in *.
  apply Forall_app in Hsplit as [_ Hsplit]. apply Forall_app in Hclean as [_ Hclean].
  rewrite Forall_forall in *. intros f Hf.
  destruct (Hsplit f Hf) as (rest & Hne & Hs).
  pose proof (Hclean f Hf) as Hcl. unfold clean_path in Hcl.
  apply andb_true_iff in Hcl as [Ho Hb]. apply negb_true_iff in Hb.
  exists rest. split; [assumption|]. split; [exact Hs|]. right.
  unfold relabel, set_label. cbn [file_label].
  rewrite (relative_below cwd pre rest) by assumption.
  assert (Hpath : file_gitRelativePath f = prefix_of pre ++ join rest).
  { now rewrite <- (join_split (file_gitRelativePath f)), Hs, join_below. }
  rewrite replace_backslashes_none; [reflexivity|].
  rewrite Hpath in Hb. now apply existsb_app_false in Hb.
Qed.

Lemma fold_insert_canonical_below (pre : list jsstring) (batch : list git.CommittedFile) :
  forall root,
    gitRelativePath root = prefix_of pre ->
    canonical pre root ->
    Forall (fun g => exists rest,
                rest <> [] /\ split is_slash (git.gitRelativePath g) = pre ++ rest)
           batch ->
    canonical pre (fold_left (insert_below pre (prefix_of pre)) batch root).
Proof.
  induction batch as [|g batch IH]; intros root Hp Hc Hall; cbn [fold_left]; [assumption|].
  inversion Hall as [|? ? (rest & Hne & Hs) Hrest]; subst.
  apply IH; [| |assumption].
  - unfold insert_below. now rewrite (proj1 (walk_header _ _ _ _)).
  - unfold insert_below. rewrite Hs, skipn_prefix, <- Hp.
    now apply walk_canonical.
Qed.

Lemma files_not_nil_transfer (a b : list CommittedFile) :
  Permutation (map as_git a) (map as_git b) -> b <> [] -> a <> [].
Proof.
  intros Hp Hb ->. cbn [map] in Hp. apply Permutation_nil in Hp.
  apply map_eq_nil in Hp. contradiction.
Qed.

(** Nesting a folder in shape gives the shape of a nested build. *)
Lemma nest_toggled (cwd : list jsstring) (folder : FolderItem) :
  forall pre,
    toggled pre folder ->
    Forall (fun f => clean_path (file_gitRelativePath f) = true) (all_files folder) ->
    canonical pre (buildFilesWithFolder cwd folder).
Proof.
  induction folder as [p l icon subs fs IH] using FolderItem_ind.
  intros pre Ht Hclean.
  apply toggled_inv in Ht as (-> & Hfs & Hnd & Hsubs).
  rewrite all_files_unfold in Hclean.
  pose proof Hclean as Hall. apply Forall_app in Hclean as [Hown _].
  cbn [buildFilesWithFolder gitRelativePath label iconPath subFolders files].
  rewrite (fold_left_ext_in
             (fun root file =>
                buildOneFileWithFolder cwd root (as_git file) (prefix_of pre))
             (fun root file => insert_below pre (prefix_of pre) root (as_git file))).
  - rewrite (fold_left_through_map (insert_below pre (prefix_of pre)) as_git).
    apply fold_insert_canonical_below; [reflexivity| |].
    + constructor; [constructor| |].
      * rewrite map_map.
        rewrite (map_ext (fun x => label (buildFilesWithFolder cwd x)) label);
          [assumption|].
        intros x. apply buildFilesWithFolder_header.
      * apply Forall_map. rewrite Forall_forall in *. intros sub Hsub.
        destruct (Hsubs sub Hsub) as (Hts & Hi & Hn).
        destruct (buildFilesWithFolder_header cwd sub) as (Wp & Wl & Wi).
        rewrite Wp, Wl, Wi. repeat split.
        -- apply (IH sub Hsub); [assumption|].
           apply Forall_forall. intros f Hf. apply Hall.
           apply in_or_app. right. apply in_flat_map. eauto.
        -- destruct sub as [ps ls ics ss fss].
           apply toggled_inv in Hts as (-> & _). cbn [gitRelativePath label].
           apply prefix_of_app.
        -- assumption.
        -- apply (files_not_nil_transfer (buildFilesWithFolder_files cwd sub) Hn).
    + apply Forall_map. rewrite Forall_forall in *. intros f Hf.
      destruct (Hfs f Hf) as (rest & Hne & Hs & _). eauto.
  - intros f Hf root. rewrite Forall_forall in Hfs, Hown.
    destruct (Hfs f Hf) as (rest & Hne & Hs & _).
    apply buildOneFileWithFolder_below with (rest := rest);
      cbn [as_git git.gitRelativePath]; auto.
Qed.

(** *** Labels that cannot meet *)

Lemma tidy_segments (p : jsstring) :
  tidy_path p = true ->
  Forall (fun seg =>
            ordinary_segment seg = true /\
            existsb is_slash seg = false /\
            existsb (N.eqb BULLET) seg = false)
         (split is_slash p).
Proof.
  unfold tidy_path, clean_path. intros H.
  apply andb_true_iff in H as [H Hb]. apply andb_true_iff in H as [Ho _].
  apply negb_true_iff in Hb.
  pose proof (split_segments_no_sep is_slash p) as H1.
  pose proof (split_segments_avoid is_slash (N.eqb BULLET) p Hb) as H2.
  rewrite forallb_forall in Ho. rewrite Forall_forall in *.
  intros seg Hin. auto.
Qed.

Lemma tidy_clean (p : jsstring) : tidy_path p = true -> clean_path p = true.
Proof. unfold tidy_path. intros H. now apply andb_true_iff in H as [? _]. Qed.

Lemma join_of_ordinary (l : list jsstring) :
  l <> [] ->
  Forall (fun seg => ordinary_segment seg = true /\ existsb is_slash seg = false) l ->
  split is_slash (join l) = l /\
  join l <> [] /\ join l <> js "/" /\ join l <> js ".".
Proof.
  intros Hne Hall.
  assert (Hs : split is_slash (join l) = l).
  { apply split_join; [reflexivity|assumption|].
    rewrite Forall_forall in *. intros seg Hin. now apply Hall. }
  split; [assumption|].
  destruct l as [|s l']; [congruence|].
  inversion Hall as [|? ? (Ho & _) _]; subst.
  repeat split; intros E; rewrite E in Hs; cbn in Hs; inversion Hs; subst; discriminate.
Qed.

Lemma prefix_of_join (l : list jsstring) :
  l <> [] -> prefix_of l = join l ++ [CHAR_FORWARD_SLASH].
Proof.
  induction l as [|s l IH]; intros Hne; [congruence|].
  destruct l as [|s' l'].
  - reflexivity.
  - change (prefix_of (s :: s' :: l'))
      with (s ++ CHAR_FORWARD_SLASH :: prefix_of (s' :: l')).
    rewrite join_cons by discriminate.
    rewrite IH by discriminate. now rewrite <- app_assoc.
Qed.

(** The formatted label of a path, from its segments: the last one, the
    separator, the others joined. *)
Lemma formatted_label_of_segments (init : list jsstring) (n : jsstring) :
  Forall (fun seg => ordinary_segment seg = true /\ existsb is_slash seg = false)
         (init ++ [n]) ->
  getFormatedLabel (join (init ++ [n])) = n ++ label_separator ++ join init.
Proof.
  intros Hall. apply Forall_app in Hall as [Hinit Hn].
  inversion Hn as [|? ? (Ho & Hs) _]; subst.
  unfold getFormatedLabel. rewrite join_snoc.
  destruct init as [|s init'].
  - cbn [prefix_of app join].
    rewrite basename_plain, dirname_plain by assumption.
    now rewrite str_eqb_refl.
  - destruct (@join_of_ordinary (s :: init')) as (_ & H1 & H2 & H3);
      [discriminate|assumption|].
    rewrite prefix_of_join by discriminate.
    rewrite <- app_assoc. cbn [app].
    rewrite basename_in_directory, dirname_in_directory;
      try assumption; try (now apply ordinary_not_nil).
    apply str_eqb_neq in H3. now rewrite H3.
Qed.

Lemma cut_at_first (x : N) (a1 a2 b1 b2 : jsstring) :
  existsb (N.eqb x) a1 = false ->
  existsb (N.eqb x) a2 = false ->
  a1 ++ x :: b1 = a2 ++ x :: b2 ->
  a1 = a2 /\ b1 = b2.
Proof.
  revert a2. induction a1 as [|c a1 IH]; intros [|c2 a2] H1 H2 E; cbn [app] in E.
  - injection E as <-. auto.
  - injection E as <- _. cbn [existsb] in H2. now rewrite N.eqb_refl in H2.
  - injection E as -> _. cbn [existsb] in H1. now rewrite N.eqb_refl in H1.
  - injection E as -> E. cbn [existsb] in H1, H2.
    apply orb_false_iff in H1 as [_ H1]. apply orb_false_iff in H2 as [_ H2].
    destruct (IH a2 H1 H2 E) as [-> ->]. auto.
Qed.

Lemma join_inj (l1 l2 : list jsstring) :
  Forall (fun seg => ordinary_segment seg = true /\ existsb is_slash seg = false) l1 ->
  Forall (fun seg => ordinary_segment seg = true /\ existsb is_slash seg = false) l2 ->
  join l1 = join l2 -> l1 = l2.
Proof.
  intros H1 H2 E.
  destruct l1 as [|s1 l1'], l2 as [|s2 l2']; [reflexivity| | |].
  - destruct (@join_of_ordinary (s2 :: l2')) as (_ & Hn & _);
      [discriminate|assumption|]. now rewrite <- E in Hn.
  - destruct (@join_of_ordinary (s1 :: l1')) as (_ & Hn & _);
      [discriminate|assumption|]. now rewrite E in Hn.
  - destruct (@join_of_ordinary (s1 :: l1')) as (Hs1 & _);
      [discriminate|assumption|].
    destruct (@join_of_ordinary (s2 :: l2')) as (Hs2 & _);
      [discriminate|assumption|].
    now rewrite <- Hs1, <- Hs2, E.
Qed.

Lemma separator_has_bullet (n d : jsstring) :
  existsb (N.eqb BULLET) (n ++ label_separator ++ d) = true.
Proof.
  rewrite existsb_app, existsb_app. cbn. now rewrite orb_true_r.
Qed.

(** Two files shown in one folder with the same label have the same path,
    when the paths are tidy. *)
Lemma shown_label_inj (pre rest1 rest2 : list jsstring) (p1 p2 l1 l2 : jsstring) :
  tidy_path p1 = true -> tidy_path p2 = true ->
  split is_slash p1 = pre ++ rest1 -> split is_slash p2 = pre ++ rest2 ->
  rest1 <> [] -> rest2 <> [] ->
  (rest1 = [l1] \/ l1 = getFormatedLabel (join rest1)) ->
  (rest2 = [l2] \/ l2 = getFormatedLabel (join rest2)) ->
  l1 = l2 -> p1 = p2.
Proof.
  intros T1 T2 S1 S2 N1 N2 L1 L2 E.
  apply tidy_segments in T1, T2. rewrite S1 in T1. rewrite S2 in T2.
  apply Forall_app in T1 as [_ T1]. apply Forall_app in T2 as [_ T2].
  assert (G : forall rest : list jsstring,
             Forall (fun seg => ordinary_segment seg = true /\
                                existsb is_slash seg = false /\
                                existsb (N.eqb BULLET) seg = false) rest ->
             Forall (fun seg => ordinary_segment seg = true /\
                                existsb is_slash seg = false) rest).
  { intros rest H. rewrite Forall_forall in *. intros seg Hin.
    destruct (H seg Hin) as (? & ? & ?). auto. }
  apply split_slash_inj. rewrite S1, S2. f_equal.
  destruct (exists_last N1) as (i1 & n1 & ->).
  destruct (exists_last N2) as (i2 & n2 & ->).
  pose proof (formatted_label_of_segments i1 n1 (G _ T1)) as F1.
  pose proof (formatted_label_of_segments i2 n2 (G _ T2)) as F2.
  assert (B1 : existsb (N.eqb BULLET) n1 = false).
  { apply Forall_app in T1 as [_ T1]. inversion T1 as [|? ? (_ & _ & ?) _]. assumption. }
  assert (B2 : existsb (N.eqb BULLET) n2 = false).
  { apply Forall_app in T2 as [_ T2]. inversion T2 as [|? ? (_ & _ & ?) _]. assumption. }
  destruct L1 as [L1|L1], L2 as [L2|L2].
  - rewrite L1, L2, E. reflexivity.
  - exfalso. destruct i1 as [|? [|? ?]]; try discriminate.
    cbn [app] in L1. injection L1 as L1.
    rewrite L1, E, L2, F2, separator_has_bullet in B1. discriminate.
  - exfalso. destruct i2 as [|? [|? ?]]; try discriminate.
    cbn [app] in L2. injection L2 as L2.
    rewrite L2, <- E, L1, F1, separator_has_bullet in B2. discriminate.
  - rewrite L1, L2, F1, F2 in E.
    assert (E' : (n1 ++ [32; 160]%N) ++ BULLET :: ([160; 32]%N ++ join i1)
                 = (n2 ++ [32; 160]%N) ++ BULLET :: ([160; 32]%N ++ join i2)).
    { rewrite <- !app_assoc. exact E. }
    apply cut_at_first in E' as [En Ed].
    + apply app_inv_tail in En. apply app_inv_head in Ed.
      apply Forall_app in T1 as [T1 _]. apply Forall_app in T2 as [T2 _].
      rewrite (join_inj (G _ T1) (G _ T2) Ed), En. reflexivity.
    + rewrite existsb_app, B1. reflexivity.
    + rewrite existsb_app, B2. reflexivity.
Qed.

Lemma toggled_labels_distinct (folder : FolderItem) :
  forall pre,
    toggled pre folder ->
    NoDup (map file_gitRelativePath (all_files folder)) ->
    Forall (fun f => tidy_path (file_gitRelativePath f) = true) (all_files folder) ->
    labels_distinct folder.
Proof.
  induction folder as [p l icon subs fs IH] using FolderItem_ind.
  intros pre Ht Hnd Htidy. apply toggled_inv in Ht as (_ & Hfs & Hlab & Hsubs).
  rewrite all_files_unfold in Hnd, Htidy. rewrite map_app in Hnd.
  pose proof (NoDup_app_remove_r _ _ Hnd) as Hfiles.
  pose proof (NoDup_app_remove_l _ _ Hnd) as Hbelow.
  constructor; [assumption| |].
  - apply (NoDup_map_transfer file_gitRelativePath); [|assumption].
    intros x y Hx Hy Hxy.
    pose proof Htidy as Hown. apply Forall_app in Hown as [Hown _].
    rewrite Forall_forall in Hfs, Hown.
    destruct (Hfs x Hx) as (r1 & N1 & S1 & L1).
    destruct (Hfs y Hy) as (r2 & N2 & S2 & L2).
    apply shown_label_inj
      with (pre := pre) (rest1 := r1) (rest2 := r2)
           (l1 := file_label x) (l2 := file_label y); auto.
  - assert (Hparts : Forall (fun sub => NoDup (map file_gitRelativePath (all_files sub))) subs).
    { clear - Hbelow. induction subs as [|a subs IHs]; constructor;
        cbn [flat_map] in Hbelow; rewrite map_app in Hbelow.
      - now apply NoDup_app_remove_r in Hbelow.
      - apply IHs. now apply NoDup_app_remove_l in Hbelow. }
    rewrite Forall_forall in *. intros sub Hsub.
    destruct (Hsubs sub Hsub) as (Hts & _).
    apply (IH sub Hsub _ Hts (Hparts sub Hsub)).
    apply Forall_forall. intros f Hf. apply Htidy.
    apply in_or_app. right. apply in_flat_map. eauto.
Qed.

(** *** A command run anywhere in the tree *)

Lemma update_nth_cases {A} (g : A -> A) (l : list A) :
  forall i,
    update_nth i g l = l \/
    exists l1 x l2, l = l1 ++ x :: l2 /\ update_nth i g l = l1 ++ g x :: l2.
Proof.
  induction l as [|a l IH]; intros i; [destruct i; now left|].
  destruct i as [|i]; cbn [update_nth].
  - right. exists [], a, l. auto.
  - destruct (IH i) as [->|(l1 & x & l2 & E & ->)]; [now left|].
    right. exists (a :: l1), x, l2. rewrite E. auto.
Qed.

Lemma files_property_transfer (P : jsstring -> Prop) (a b : list CommittedFile) :
  Permutation (map as_git a) (map as_git b) ->
  Forall (fun f => P (file_gitRelativePath f)) b ->
  Forall (fun f => P (file_gitRelativePath f)) a.
Proof.
  intros Hp Hb.
  assert (H : Forall (fun g => P (git.gitRelativePath g)) (map as_git a)).
  { apply (Permutation_Forall (Permutation_sym Hp)). apply Forall_map.
    rewrite Forall_forall in *. intros f Hf. exact (Hb f Hf). }
  rewrite Forall_map in H. exact H.
Qed.

(** A command that keeps folders in shape, with their label, their icon
    and their files, does so wherever it is run in the tree. *)
Lemma toggle_at_toggled (g : FolderItem -> FolderItem) :
  (forall pre folder,
      toggled pre folder ->
      Forall (fun f => clean_path (file_gitRelativePath f) = true) (all_files folder) ->
      toggled pre (g folder) /\
      label (g folder) = label folder /\
      iconPath (g folder) = iconPath folder /\
      Permutation (map as_git (all_files (g folder))) (map as_git (all_files folder))) ->
  forall position pre folder,
    toggled pre folder ->
    Forall (fun f => clean_path (file_gitRelativePath f) = true) (all_files folder) ->
    toggled pre (toggle_at position g folder) /\
    label (toggle_at position g folder) = label folder /\
    iconPath (toggle_at position g folder) = iconPath folder /\
    Permutation (map as_git (all_files (toggle_at position g folder)))
                (map as_git (all_files folder)).
Proof.
  intros Hg. induction position as [|i rest IH]; intros pre folder Ht Hclean.
  - now apply Hg.
  - destruct folder as [p l icon subs fs].
    cbn [toggle_at]. unfold set_subFolders.
    cbn [subFolders gitRelativePath label iconPath files].
    destruct (update_nth_cases (toggle_at rest g) subs i)
      as [->|(l1 & x & l2 & -> & ->)]; [auto|].
    apply toggled_inv in Ht as (-> & Hfs & Hnd & Hsubs).
    rewrite all_files_unfold in Hclean.
    assert (Hx : Forall (fun f => clean_path (file_gitRelativePath f) = true)
                        (all_files x)).
    { apply (@clean_files_below x (l1 ++ x :: l2) fs); [|assumption].
      apply in_or_app. right. now left. }
    apply Forall_app in Hsubs as [H1 H2].
    inversion H2 as [|? ? (Htx & Hix & Hnx) H2']; subst.
    destruct (IH (pre ++ [label x]) x Htx Hx) as (Kt & Kl & Ki & Kp).
    split; [|split; [reflexivity|split; [reflexivity|]]].
    + constructor; [assumption| |].
      * rewrite map_app in *. cbn [map] in *. now rewrite Kl.
      * apply Forall_app. split; [assumption|]. constructor; [|assumption].
        rewrite Kl, Ki. repeat split; auto.
        apply (files_not_nil_transfer Kp Hnx).
    + rewrite !all_files_unfold, !flat_map_middle, !map_app.
      apply Permutation_app_head, Permutation_app_head, Permutation_app_tail.
      exact Kp.
Qed.

Lemma flatten_keeps (cwd : list jsstring) (pre : list jsstring) (folder : FolderItem) :
  toggled pre folder ->
  Forall (fun f => clean_path (file_gitRelativePath f) = true) (all_files folder) ->
  toggled pre (showFilesWithoutFolder cwd folder) /\
  label (showFilesWithoutFolder cwd folder) = label folder /\
  iconPath (showFilesWithoutFolder cwd folder) = iconPath folder /\
  Permutation (map as_git (all_files (showFilesWithoutFolder cwd folder)))
              (map as_git (all_files folder)).
Proof.
  intros Ht Hclean.
  split; [now apply flatten_toggled|].
  destruct folder. split; [reflexivity|split; [reflexivity|]].
  now rewrite showFilesWithoutFolder_files.
Qed.

Lemma nest_keeps (cwd : list jsstring) (pre : list jsstring) (folder : FolderItem) :
  toggled pre folder ->
  Forall (fun f => clean_path (file_gitRelativePath f) = true) (all_files folder) ->
  toggled pre (showFilesWithFolder cwd folder) /\
  label (showFilesWithFolder cwd folder) = label folder /\
  iconPath (showFilesWithFolder cwd folder) = iconPath folder /\
  Permutation (map as_git (all_files (showFilesWithFolder cwd folder)))
              (map as_git (all_files folder)).
Proof.
  intros Ht Hclean. unfold showFilesWithFolder.
  destruct (buildFilesWithFolder_header cwd folder) as (Wp & Wl & Wi).
  split; [|split; [assumption|split; [assumption|]]].
  - apply canonical_toggled; [now apply nest_toggled|].
    rewrite Wp. destruct folder. now apply toggled_inv in Ht as (-> & _).
  - apply buildFilesWithFolder_files.
Qed.

(** Child folders keep distinct labels, whatever the records. *)
Lemma toggle_at_folder_labels (g : FolderItem -> FolderItem) :
  (forall folder,
      folder_labels_distinct folder ->
      folder_labels_distinct (g folder) /\ label (g folder) = label folder) ->
  forall position folder,
    folder_labels_distinct folder ->
    folder_labels_distinct (toggle_at position g folder) /\
    label (toggle_at position g folder) = label folder.
Proof.
  intros Hg. induction position as [|i rest IH]; intros folder Hd; [now apply Hg|].
  destruct folder as [p l icon subs fs].
  cbn [toggle_at]. unfold set_subFolders.
  cbn [subFolders gitRelativePath label iconPath files].
  destruct (update_nth_cases (toggle_at rest g) subs i)
    as [->|(l1 & x & l2 & -> & ->)]; [auto|].
  inversion Hd as [? ? ? ? ? Hnd Hsubs]; subst.
  apply Forall_app in Hsubs as [H1 H2]. inversion H2 as [|? ? Hx H2']; subst.
  destruct (IH x Hx) as (Kd & Kl).
  split; [|reflexivity]. constructor.
  - rewrite map_app in *. cbn [map] in *. now rewrite Kl.
  - apply Forall_app. split; [assumption|]. now constructor.
Qed.

Lemma build_folder_labels (cwd : list jsstring) (label0 : jsstring)
      (committedFiles : list git.CommittedFile) (withFolder : bool) :
  folder_labels_distinct (buildCommitFolder cwd label0 committedFiles withFolder).
Proof.
  destruct withFolder; [|constructor; constructor].
  unfold buildCommitFolder, buildFileTree.
  assert (Hnew : folder_labels_distinct (newFolderItem [] label0 (Some rootFolderIcon)))
    by (constructor; constructor).
  revert Hnew. generalize (newFolderItem [] label0 (Some rootFolderIcon)).
  induction committedFiles as [|file batch IH]; intros root Hd; cbn [fold_left];
    [assumption|].
  apply IH. now apply walk_folder_labels.
Qed.

Lemma reachable_folder_labels (cwd : list jsstring) (start tree : FolderItem) :
  folder_labels_distinct start ->
  reachable cwd start tree ->
  folder_labels_distinct tree.
Proof.
  intros Hstart. induction 1 as [|tree position _ IH|tree position _ IH];
    [assumption| |].
  - apply toggle_at_folder_labels; [|assumption].
    intros folder _. destruct folder. split; [|reflexivity].
    constructor; constructor.
  - apply toggle_at_folder_labels; [|assumption].
    intros folder Hd. split.
    + now apply buildFilesWithFolder_folder_labels.
    + apply buildFilesWithFolder_header.
Qed.

Lemma reachable_toggled (cwd : list jsstring) (start tree : FolderItem) :
  toggled [] start ->
  Forall (fun f => clean_path (file_gitRelativePath f) = true) (all_files start) ->
  reachable cwd start tree ->
  toggled [] tree /\
  Permutation (map as_git (all_files tree)) (map as_git (all_files start)).
Proof.
  intros Hstart Hclean.
  induction 1 as [|tree position _ (Ht & Hp)|tree position _ (Ht & Hp)];
    [now split| |].
  - destruct (@toggle_at_toggled (showFilesWithoutFolder cwd) (flatten_keeps cwd)
                                 position [] tree Ht)
      as (Kt & _ & _ & Kp).
    + exact (@files_property_transfer (fun p => clean_path p = true) _ _ Hp Hclean).
    + split; [assumption|]. now rewrite Kp.
  - destruct (@toggle_at_toggled (showFilesWithFolder cwd) (nest_keeps cwd)
                                 position [] tree Ht)
      as (Kt & _ & _ & Kp).
    + exact (@files_property_transfer (fun p => clean_path p = true) _ _ Hp Hclean).
    + split; [assumption|]. now rewrite Kp.
Qed.

Lemma build_toggled (cwd : list jsstring) (label0 : jsstring)
      (committedFiles : list git.CommittedFile) (withFolder : bool) :
  toggled [] (buildCommitFolder cwd label0 committedFiles withFolder) /\
  Permutation
    (map as_git (all_files (buildCommitFolder cwd label0 committedFiles withFolder)))
    committedFiles.
Proof.
  destruct withFolder.
  - split; [|apply nested_build_files].
    apply canonical_toggled; [apply nested_build_canonical|apply nested_build_path].
  - split; [apply flat_build_toggled|].
    unfold buildCommitFolder, buildFileTree, newFolderItem, set_files.
    rewrite all_files_unfold. cbn [files app flat_map]. rewrite app_nil_r, map_map.
    rewrite (map_ext _ (fun x => x) as_git_createCommittedFile), map_id. reflexivity.
Qed.

(** C9 (as amended).  In every tree the builder produces, with or without folders, and
    in every tree the flatten and nest commands lead to from it, run on
    any folder and any number of times, no folder has two child folders
    with the same label, whatever the records.  When the records have
    pairwise distinct relative paths that are clean (no empty, ["."] or
    [".."] segment, no backslash) and hold no bullet (U+2022), no folder
    of these trees has two child files with the same label either. *)
Theorem C9_distinct_labels (cwd : list jsstring) (label0 : jsstring)
        (withFolder : bool) :
  (forall (committedFiles : list git.CommittedFile) (tree : FolderItem),
      reachable cwd (buildCommitFolder cwd label0 committedFiles withFolder) tree ->
      folder_labels_distinct tree) /\
  (forall (committedFiles : list git.CommittedFile) (tree : FolderItem),
      NoDup (map git.gitRelativePath committedFiles) ->
      Forall (fun file => tidy_path (git.gitRelativePath file) = true) committedFiles ->
      reachable cwd (buildCommitFolder cwd label0 committedFiles withFolder) tree ->
      labels_distinct tree).
Proof.
  split.
  - intros committedFiles tree Hr.
    exact (reachable_folder_labels (build_folder_labels cwd label0 committedFiles withFolder) Hr).
  - intros committedFiles tree Hnd Htidy Hr.
    destruct (build_toggled cwd label0 committedFiles withFolder) as (Hstart & Hfiles).
    assert (Hpaths : forall P : jsstring -> Prop,
               Forall (fun file => P (git.gitRelativePath file)) committedFiles ->
               Forall (fun f => P (file_gitRelativePath f))
                      (all_files (buildCommitFolder cwd label0 committedFiles withFolder))).
    { intros P HP. apply (Permutation_Forall (Permutation_sym Hfiles)) in HP.
      now rewrite Forall_map in HP. }
    assert (Hclean : Forall (fun file => clean_path (git.gitRelativePath file) = true)
                            committedFiles).
    { rewrite Forall_forall in *. intros file Hin. now apply tidy_clean, Htidy. }
    destruct (reachable_toggled Hstart (Hpaths (fun p => clean_path p = true) Hclean) Hr)
      as (Ht & Hp).
    apply (toggled_labels_distinct Ht).
    + assert (E : map file_gitRelativePath (all_files tree)
                  = map git.gitRelativePath (map as_git (all_files tree)))
        by now rewrite map_map.
      rewrite E. rewrite Hp, Hfiles. exact Hnd.
    + exact (@files_property_transfer (fun p => tidy_path p = true) _ _ Hp
                                         (Hpaths (fun p => tidy_path p = true) Htidy)).
Qed.

Lemma C9_distinct_labels_witness :
  NoDup (map git.gitRelativePath example_deep_records) /\
  Forall (fun file => tidy_path (git.gitRelativePath file) = true) example_deep_records /\
  reachable [] (buildCommitFolder [] (js "Changes of Commit abc") example_deep_records true)
            (toggle_at [] (showFilesWithFolder [])
               (toggle_at [0] (showFilesWithoutFolder [])
                  (buildCommitFolder [] (js "Changes of Commit abc")
                                     example_deep_records true))) /\
  labels_distinct
    (toggle_at [] (showFilesWithFolder [])
       (toggle_at [0] (showFilesWithoutFolder [])
          (buildCommitFolder [] (js "Changes of Commit abc")
                             example_deep_records true))).
Proof.
  assert (Hnd : NoDup (map git.gitRelativePath example_deep_records)).
  { repeat constructor; simpl; intuition discriminate. }
  assert (Htidy : Forall (fun file => tidy_path (git.gitRelativePath file) = true)
                         example_deep_records).
  { repeat constructor. }
  assert (Hr : reachable [] (buildCommitFolder [] (js "Changes of Commit abc")
                                               example_deep_records true)
                         (toggle_at [] (showFilesWithFolder [])
                            (toggle_at [0] (showFilesWithoutFolder [])
                               (buildCommitFolder [] (js "Changes of Commit abc")
                                                  example_deep_records true)))).
  { apply reach_nest, reach_flatten, reach_start. }
  split; [exact Hnd|split; [exact Htidy|split; [exact Hr|]]].
  exact (proj2 (C9_distinct_labels [] (js "Changes of Commit abc") true)
               example_deep_records _ Hnd Htidy Hr).
Defined.

(** The side conditions on the paths are needed.  With a backslash in a
    name, nesting the root of a nested build leaves two files labelled
    ["b.ts"] in one folder. *)
Example backslash_labels_meet :
  let records :=
    [ git.mk (mkUri (js "/repo/src/a/b.ts")) (js "src/a/b.ts") (Some (js "M"));
      git.mk (mkUri (js "/repo/src/a\b.ts")) (js "src/a\b.ts") (Some (js "A")) ] in
  NoDup (map git.gitRelativePath records) /\
  ~ labels_distinct
      (showFilesWithFolder []
         (buildCommitFolder [] (js "Changes of Commit abc") records true)).
Proof.
  split.
  - repeat constructor; simpl; intuition discriminate.
  - intros H. vm_compute in H.
    inversion H as [? ? ? ? ? Hn0 Hf0 Hsubs]; subst.
    inversion Hsubs as [|? ? Hsrc Hr0]; subst.
    inversion Hsrc as [? ? ? ? ? Hn1 Hf1 Hsubs']; subst.
    inversion Hsubs' as [|? ? Ha Hr1]; subst.
    inversion Ha as [? ? ? ? ? Hn2 Hfiles Hr2]; subst.
    inversion Hfiles as [|? ? Hin Hr3]; subst.
    apply Hin. now left.
Qed.

(** With a ["."] segment, flattening the root labels two files alike. *)
Example dot_segment_labels_meet :
  let records :=
    [ git.mk (mkUri (js "/repo/a/b")) (js "a/b") (Some (js "M"));
      git.mk (mkUri (js "/repo/a/./b")) (js "a/./b") (Some (js "A")) ] in
  NoDup (map git.gitRelativePath records) /\
  ~ labels_distinct
      (showFilesWithoutFolder []
         (buildCommitFolder [] (js "Changes of Commit abc") records true)).
Proof.
  split.
  - repeat constructor; simpl; intuition discriminate.
  - intros H. inversion H as [? ? ? ? ? Hsubs Hfiles Hrest]; subst.
    vm_compute in Hfiles. inversion Hfiles as [|? ? Hin Hr0]; subst.
    apply Hin. now left.
Qed.
